(** * A shallow embedding of the SSE broker (packages [client] and [broker])

    The development follows the two Go packages of the repository:

    - [client]: one streaming client, its hand-off channel, its failure
      counter and its tolerance ([New], [ID], [Listen], [Write],
      [ShouldDisconnect]);
    - [broker]: the registry of clients (a [sync.Map] from identifier to
      [*client.Client]) with [Broadcast], [BroadcastTo], [ClientHandler] and
      [EventHandler].

    Go's [int] is taken at its 64-bit width, with the wrap-around of [++]
    written out.  The heap of [*client.Client] objects is explicit, so that
    the registry holds pointers as it does in the source.  Whatever the Go
    scheduler decides (which case of a [select] fires) is an argument of the
    function that contains the [select]. *)

From Stdlib Require Import ZArith Lia List String Ascii Strings.Byte.
From stdpp Require Import base decidable option list strings.

Local Open Scope Z_scope.

(** ** Go's [int]: 64 bits, two's complement *)

Module goint.

Definition min_int : Z := - 2 ^ 63.
Definition max_int : Z := 2 ^ 63 - 1.

(** The value an arithmetic result has once it is stored in an [int]. *)
Definition wrap (z : Z) : Z := (z + 2 ^ 63) mod 2 ^ 64 - 2 ^ 63.

(** [x++] *)
Definition incr (x : Z) : Z := wrap (x + 1).

Definition in_range (z : Z) : Prop := min_int <= z <= max_int.

End goint.

(** A [[]byte] payload. *)
Abbreviation payload := (list byte).

(** Go's [error] values in this program are only ever built from a message
    ([errors.New], [fmt.Errorf]); [nil] is [None]. *)
Abbreviation error := (option string).

Definition newline : string := String (ascii_of_nat 10) EmptyString.

(** ** Package [client] *)

Module client.

(** The two cases of the [select] in [Write]: the send on [c.notify] was
    taken by a receiver, or the ticker of [time.Tick(c.timeout)] fired
    first. *)
Inductive select_outcome : Set :=
| Sent
| TimedOut.

#[global] Instance select_outcome_eq_dec : EqDecision select_outcome.
Proof. solve_decision. Defined.

(** [notify] is an unbuffered channel: a send completes only when it is
    received.  The field holds the payloads handed over so far, oldest
    first; the one receiver of the channel, the handler of the client, keeps
    count of how many of them it has taken. *)
Record Client : Type := mkClient {
  id : string;
  notify : list payload;
  timeout : Z;
  failures : Z;
  tolerance : Z
}.

Definition with_id (c : Client) (s : string) : Client :=
  mkClient s (notify c) (timeout c) (failures c) (tolerance c).

Definition with_failures (c : Client) (n : Z) : Client :=
  mkClient (id c) (notify c) (timeout c) n (tolerance c).

Definition send (c : Client) (data : payload) : Client :=
  mkClient (id c) (notify c ++ [data]) (timeout c) (failures c) (tolerance c).

(** [New]; [xid] is what [xid.New().String()] returns when it is called. *)
Definition New (timeout tolerance : Z) (id : string) (xid : string) : Client :=
  let ret := mkClient id [] timeout 0 tolerance in
  if decide (id = "") then with_id ret xid else ret.

Definition ID (c : Client) : string := id c.

Definition Listen (c : Client) : list payload := notify c.

Definition timeout_error (c : Client) : string :=
  "failed to write to client " +:+ id c +:+ ", timeout exceeded".

(** [Write]: the object after the call and the returned error. *)
Definition Write (c : Client) (data : payload) (o : select_outcome)
  : Client * error :=
  match o with
  | Sent => (with_failures (send c data) 0, None)
  | TimedOut => (with_failures c (goint.incr (failures c)), Some (timeout_error c))
  end.

Definition ShouldDisconnect (c : Client) : bool :=
  failures c >=? tolerance c.

(** [n] calls of [Write] in a row that all time out. *)
Fixpoint timeouts (n : nat) (c : Client) (data : payload) : Client :=
  match n with
  | O => c
  | S n' => timeouts n' (fst (Write c data TimedOut)) data
  end.

End client.

(** ** [sync.Map], as the broker uses it

    Keys are the client identifiers.  A value is whatever was stored: the
    only [Store] of the program stores a [*client.Client], and the type
    assertions of [Broadcast] and [BroadcastTo] tell it from anything else.
    An association list keeps the order in which [Range] walks the entries,
    which Go leaves open: every order is some list. *)

Module syncmap.

Inductive value : Set :=
| VClient (p : nat)   (* a [*client.Client], by its address; an address at
                         which the heap holds nothing is the nil pointer *)
| VOther.             (* a value of any other dynamic type *)

#[global] Instance value_eq_dec : EqDecision value.
Proof. solve_decision. Defined.

Definition Map : Set := list (string * value).

Definition Load (key : string) (m : Map) : option value :=
  snd <$> List.find (fun e => bool_decide (e.1 = key)) m.

Definition Delete (key : string) (m : Map) : Map :=
  List.filter (fun e => negb (bool_decide (e.1 = key))) m.

Definition Store (key : string) (v : value) (m : Map) : Map :=
  match Load key m with
  | Some _ => List.map (fun e => if bool_decide (e.1 = key) then (key, v) else e) m
  | None => m ++ [(key, v)]
  end.

Definition keys (m : Map) : list string := List.map fst m.

End syncmap.

(** ** Package [broker] *)

Module broker.

Import syncmap.

(** *** The HTTP boundary

    A response writer is known to the handlers by the two optional
    interfaces they assert on it, by its header map and by the calls it
    receives. *)

Inductive wire_op : Set :=
| OpWriteHeader (code : Z)
| OpWrite (bytes : payload)
| OpFlush.

Record ResponseWriter : Set := mkWriter {
  isFlusher : bool;          (* [w.(http.Flusher)] succeeds *)
  isCloseNotifier : bool;    (* [w.(http.CloseNotifier)] succeeds *)
  header : list (string * string);
  wire : list wire_op        (* calls received, oldest first *)
}.

(** [r.URL.Query()] already parsed ([url.Values]) and the result of
    [ioutil.ReadAll(r.Body)]. *)
Record Request : Set := mkRequest {
  Query : list (string * list string);
  Body : payload * error
}.

(** [url.Values.Get]: the first value stored under the key, or the empty
    string. *)
Definition Get (v : list (string * list string)) (key : string) : string :=
  match List.find (fun e => bool_decide (e.1 = key)) v with
  | Some (_, x :: _) => x
  | _ => ""
  end.

Definition Header_Set (key val : string) (w : ResponseWriter) : ResponseWriter :=
  mkWriter (isFlusher w) (isCloseNotifier w)
    (List.filter (fun e => negb (bool_decide (e.1 = key))) (header w) ++ [(key, val)])
    (wire w).

Definition call (op : wire_op) (w : ResponseWriter) : ResponseWriter :=
  mkWriter (isFlusher w) (isCloseNotifier w) (header w) (wire w ++ [op]).

Definition StatusOK : Z := 200.
Definition StatusInternalServerError : Z := 500.

(** [http.Error] of net/http: plain-text headers, the status code, the
    message and a newline. *)
Definition http_Error (w : ResponseWriter) (msg : string) (code : Z) : ResponseWriter :=
  call (OpWrite (list_byte_of_string (msg +:+ newline)))
    (call (OpWriteHeader code)
       (Header_Set "X-Content-Type-Options" "nosniff"
          (Header_Set "Content-Type" "text/plain; charset=utf-8" w))).

Definition ErrorHandler : Set := ResponseWriter -> Request -> string -> ResponseWriter.

Record defaultBroker : Set := mkBroker {
  timeout : Z;
  clients : Map;
  errorHandler : option ErrorHandler;
  tolerance : Z
}.

(** [New] *)
Definition New (timeout tolerance : Z) (eh : option ErrorHandler) : defaultBroker :=
  mkBroker timeout [] eh tolerance.

(** *** The state the methods run in

    The receiver [b], the heap of client objects that the registry points
    into, and a history of the calls made (the history is only
    written, never read by the program). *)

Inductive event : Set :=
| CallBroadcast (data : payload)
| CallBroadcastTo (id : string) (data : payload)
| CallWrite (p : nat) (data : payload) (o : client.select_outcome).

Record world : Set := mkWorld {
  this : defaultBroker;
  heap : list client.Client;
  history : list event
}.

Definition start (b : defaultBroker) : world := mkWorld b [] [].

(** A method either returns or panics; both leave a state behind. *)
Inductive result (A : Type) : Type :=
| Ok (a : A) (w : world)
| Panic (msg : string) (w : world).
Arguments Ok {A} a w.
Arguments Panic {A} msg w.

Definition M (A : Type) : Type := world -> result A.

Definition ret {A} (a : A) : M A := fun w => Ok a w.

Definition bind {A B} (m : M A) (k : A -> M B) : M B :=
  fun w =>
    match m w with
    | Ok a w' => k a w'
    | Panic msg w' => Panic msg w'
    end.

Notation "'let*' x ':=' m 'in' k" := (bind m (fun x => k))
  (at level 10, x pattern, m at level 100, k at level 200).

Definition final {A} (r : result A) : world :=
  match r with Ok _ w => w | Panic _ w => w end.

Definition nil_dereference : string :=
  "runtime error: invalid memory address or nil pointer dereference".

Definition panic {A} (msg : string) : M A := fun w => Panic msg w.

Definition get_clients : M Map := fun w => Ok (clients (this w)) w.

Definition set_clients (m : Map) : M unit :=
  fun w =>
    let b := this w in
    Ok tt (mkWorld (mkBroker (timeout b) m (errorHandler b) (tolerance b))
             (heap w) (history w)).

Definition record (e : event) : M unit :=
  fun w => Ok tt (mkWorld (this w) (heap w) (history w ++ [e])).

(** Reading through a [*client.Client]; [None] is the nil pointer. *)
Definition deref (client : option nat) : M client.Client :=
  fun w =>
    match client with
    | Some p =>
        match heap w !! p with
        | Some c => Ok c w
        | None => Panic nil_dereference w
        end
    | None => Panic nil_dereference w
    end.

Definition assign (p : nat) (c : client.Client) : M unit :=
  fun w => Ok tt (mkWorld (this w) (<[p := c]> (heap w)) (history w)).

(** [client.New] allocates. *)
Definition alloc (c : client.Client) : M nat :=
  fun w => Ok (length (heap w)) (mkWorld (this w) (heap w ++ [c]) (history w)).

(** The methods of [*client.Client], called through a pointer. *)
Definition Client_ID (client : option nat) : M string :=
  let* c := deref client in ret (client.ID c).

Definition Client_ShouldDisconnect (client : option nat) : M bool :=
  let* c := deref client in ret (client.ShouldDisconnect c).

Definition Client_Write (client : option nat) (data : payload)
    (o : client.select_outcome) : M error :=
  let* c := deref client in
  let p := default O client in
  let* _ := record (CallWrite p data o) in
  let (c', err) := client.Write c data o in
  let* _ := assign p c' in
  ret err.

(** The type assertion of a registry value to a client pointer, in its
    comma-ok form. *)
Definition as_Client (v : value) : option nat * bool :=
  match v with
  | VClient p => (Some p, true)
  | VOther => (None, false)
  end.

(** *** The calls on [b.clients] *)

Definition clients_Load (key : string) : M (option value) :=
  let* m := get_clients in ret (Load key m).

Definition clients_Store (key : string) (v : value) : M unit :=
  let* m := get_clients in set_clients (Store key v m).

Definition clients_Delete (key : string) : M unit :=
  let* m := get_clients in set_clients (Delete key m).

(** *** Registry helpers *)

Definition addClient (client : option nat) : M unit :=
  let* id := Client_ID client in
  clients_Store id (VClient (default O client)).

Definition removeClient (id : string) : M unit :=
  clients_Delete id.

Definition hasClient (id : string) : M bool :=
  let* item := clients_Load id in
  ret (bool_decide (is_Some item)).

(** [listenForClose], from the moment the close notification arrives. *)
Definition listenForClose (id : string) : M unit := removeClient id.

Definition httpError (w : ResponseWriter) (r : Request) (err : string) (code : Z)
  : M ResponseWriter :=
  fun s =>
    match errorHandler (this s) with
    | Some eh => Ok (eh w r err) s
    | None => Ok (http_Error w err code) s
    end.

(** *** [sync.Map.Range]

    [Range] walks the entries present when it starts and calls [f] on the
    current value of each one that has not been deleted in the meantime;
    it stops when [f] returns false.  The local variables that the Go
    closure captures and updates are the accumulator [acc]. *)
Fixpoint Range_from {S : Type} (snapshot : Map)
    (f : string -> value -> S -> M (bool * S)) (acc : S) : M S :=
  match snapshot with
  | [] => ret acc
  | (key, _) :: rest =>
      let* current := clients_Load key in
      match current with
      | None => Range_from rest f acc
      | Some v =>
          let* (continue, acc') := f key v acc in
          if continue : bool then Range_from rest f acc' else ret acc'
      end
  end.

Definition Range {S : Type} (f : string -> value -> S -> M (bool * S)) (acc : S) : M S :=
  let* m := get_clients in Range_from m f acc.

(** *** [BroadcastTo] *)
Definition BroadcastTo (id : string) (data : payload) (o : client.select_outcome)
  : M error :=
  let* _ := record (CallBroadcastTo id data) in
  let* item := clients_Load id in
  match item with
  | None => ret (Some ("no client with id " +:+ id +:+ " exists"))
  | Some item =>
      let '(client, ok) := as_Client item in
      if negb ok then
        let* _ := removeClient id in
        ret (Some "client is malformed, disconnecting")
      else
        Client_Write client data o
  end.

(** *** [Broadcast]

    [sched n] is the outcome of the [select] of the [n]-th [Write] of this
    call, counted from zero.  The closure's accumulator is [out] and that
    count. *)
Definition Broadcast_visit (data : payload) (sched : nat -> client.select_outcome)
    (key : string) (value : value) (acc : list string * nat)
  : M (bool * (list string * nat)) :=
  let '(out, n) := acc in
  let '(client, ok) := as_Client value in
  let* out :=
    (if negb ok then
       let err := "found malformed client with id " +:+ key +:+ ", disconnecting" in
       let* _ := clients_Delete key in
       ret (out ++ [err])
     else ret out) in
  let* err := Client_Write client data (sched n) in
  match err with
  | Some e =>
      let* disconnect := Client_ShouldDisconnect client in
      let* _ :=
        (if disconnect : bool then
           let* id := Client_ID client in removeClient id
         else ret tt) in
      ret (true, (out ++ [e], S n))
  | None => ret (true, (out, S n))
  end.

Definition Broadcast (data : payload) (sched : nat -> client.select_outcome)
  : M error :=
  let* _ := record (CallBroadcast data) in
  let* (out, _) := Range (Broadcast_visit data sched) ([], O) in
  if (0 <? length out)%nat then ret (Some (String.concat newline out))
  else ret None.

(** *** [EventHandler]

    [sched] is handed to [Broadcast]; the one [Write] of [BroadcastTo] takes
    [sched 0]. *)
Definition EventHandler (w : ResponseWriter) (r : Request)
    (sched : nat -> client.select_outcome) : M ResponseWriter :=
  let '(data, err) := Body r in
  match err with
  | Some e => httpError w r e StatusInternalServerError
  | None =>
      let id := Get (Query r) "id" in
      let* err :=
        (if negb (bool_decide (id = "")) then BroadcastTo id data (sched O)
         else Broadcast data sched) in
      match err with
      | Some e => httpError w r e StatusInternalServerError
      | None => ret (call (OpWriteHeader StatusOK) w)
      end
  end.

(** *** [ClientHandler] *)

(** The two type assertions on the response writer: the interface value
    ([false] is the nil interface) and the ok flag. *)
Definition as_Flusher (w : ResponseWriter) : bool * bool :=
  (isFlusher w, isFlusher w).

Definition as_CloseNotifier (w : ResponseWriter) : bool * bool :=
  (isCloseNotifier w, isCloseNotifier w).

(** The bytes [fmt.Fprintf(w, "data: %s\n\n", data)] writes. *)
Definition frame (data : payload) : payload :=
  list_byte_of_string "data: " ++ data ++ [x0a; x0a]%byte.

Definition Fprintf_data (w : ResponseWriter) (data : payload) : ResponseWriter :=
  call (OpWrite (frame data)) w.

(** [flusher.Flush()], a method call on an interface value. *)
Definition Flush (flusher : bool) (w : ResponseWriter) : M ResponseWriter :=
  if flusher then ret (call OpFlush w) else panic nil_dereference.

(** What the handler goroutine holds while it is in its loop: its local
    variables [w], [flusher], [client] and [id], and how many payloads it
    has received from [client.Listen()] so far. *)
Record handler : Set := mkHandler {
  h_w : ResponseWriter;
  h_flusher : bool;
  h_client : option nat;
  h_id : string;
  h_taken : nat
}.

(** What happens around a handler that waits in its [select]: the receive
    from [client.Listen()] is chosen, the ticker fires, or the goroutine
    started with [go b.listenForClose] gets the close notification. *)
Inductive loop_event : Set :=
| Received
| Ticked
| CloseNotified.

(** The handler has returned, or it still waits in the [select] when the
    events given to the model are used up. *)
Inductive handler_status : Set :=
| Returned (w : ResponseWriter)
| Waiting (h : handler).

(** [<-client.Listen()]: the next payload that a [Write] has handed over
    and the handler has not received yet; [None] when there is none, and the
    receive is not ready. *)
Definition Client_Listen (client : option nat) (taken : nat) : M (option payload) :=
  let* c := deref client in ret (client.Listen c !! taken).

(** The handler sits in the [select]; the loop condition is evaluated
    again after each case that fires. *)
Fixpoint ClientHandler_select (evs : list loop_event) (h : handler)
  : M handler_status :=
  match evs with
  | [] => ret (Waiting h)
  | CloseNotified :: evs' =>
      let* _ := listenForClose (h_id h) in
      ClientHandler_select evs' h
  | Received :: evs' =>
      let* ready := Client_Listen (h_client h) (h_taken h) in
      match ready with
      | None => ClientHandler_select evs' h
      | Some data =>
          let w := Fprintf_data (h_w h) data in
          let* w := Flush (h_flusher h) w in
          let h := mkHandler w (h_flusher h) (h_client h) (h_id h) (S (h_taken h)) in
          let* registered := hasClient (h_id h) in
          if registered : bool then ClientHandler_select evs' h
          else ret (Returned (h_w h))
      end
  | Ticked :: evs' =>
      let* registered := hasClient (h_id h) in
      if registered : bool then ClientHandler_select evs' h
      else ret (Returned (h_w h))
  end.

Definition ClientHandler_loop (evs : list loop_event) (h : handler)
  : M handler_status :=
  let* registered := hasClient (h_id h) in
  if registered : bool then ClientHandler_select evs h
  else ret (Returned (h_w h)).

(** [defer d]: [d] runs when the body returns or panics, not while the
    handler still waits. *)
Definition deferred (d : M unit) (body : M handler_status) : M handler_status :=
  fun w =>
    match body w with
    | Ok (Waiting h) w' => Ok (Waiting h) w'
    | Ok (Returned x) w' =>
        match d w' with
        | Ok _ w'' => Ok (Returned x) w''
        | Panic msg w'' => Panic msg w''
        end
    | Panic msg w' => Panic msg (final (d w'))
    end.

Definition client_New (id : string) (xid : string) : M (option nat) :=
  fun w =>
    let b := this w in
    match alloc (client.New (timeout b) (tolerance b) id xid) w with
    | Ok p w' => Ok (Some p) w'
    | Panic msg w' => Panic msg w'
    end.

Definition ClientHandler (w : ResponseWriter) (r : Request) (xid : string)
    (evs : list loop_event) : M handler_status :=
  let '(flusher, ok) := as_Flusher w in
  let '(notify, ok) := as_CloseNotifier w in
  if negb ok then
    let err := "client does not support streaming" in
    let* w := httpError w r err StatusInternalServerError in
    ret (Returned w)
  else
    let w := Header_Set "Content-Type" "text/event-stream" w in
    let w := Header_Set "Cache-Control" "no-cache" w in
    let w := Header_Set "Connection" "keep-alive" w in
    let w := Header_Set "Access-Control-Allow-Origin" "*" w in
    let* client := client_New (Get (Query r) "id") xid in
    let* id := Client_ID client in
    let* duplicate := hasClient id in
    if duplicate : bool then
      let err := "a client with id " +:+ id +:+ " already exists" in
      let* w := httpError w r err StatusInternalServerError in
      ret (Returned w)
    else
      deferred (removeClient id)
        (let* _ := addClient client in
         ClientHandler_loop evs (mkHandler w flusher client id O)).

(** A handler that was left waiting in its [select] goes on with further
    events. *)
Definition ClientHandler_resume (evs : list loop_event) (h : handler)
  : M handler_status :=
  deferred (removeClient (h_id h)) (ClientHandler_select evs h).

End broker.

(** ** Well-formed registries and reachable states *)

Module registry.

Import syncmap broker.

(** The client object a registry entry points to, if it is a client. *)
Definition entry_client (h : list client.Client) (e : string * value)
  : option (nat * client.Client) :=
  match e.2 with
  | VClient p =>
      match h !! p with
      | Some c => Some (p, c)
      | None => None
      end
  | VOther => None
  end.

(** The entry holds a client, stored under the client's own ID. *)
Definition entry_ok (h : list client.Client) (e : string * value) : Prop :=
  match entry_client h e with
  | Some (_, c) => client.ID c = e.1
  | None => False
  end.

#[global] Instance entry_ok_dec h e : Decision (entry_ok h e).
Proof. unfold entry_ok. destruct (entry_client h e) as [[p c]|]; apply _. Defined.

(** No key twice (it is a map), and every entry is as [entry_ok] says. *)
Definition registry_ok (w : world) : Prop :=
  NoDup (keys (clients (this w))) /\
  Forall (entry_ok (heap w)) (clients (this w)).

#[global] Instance registry_ok_dec w : Decision (registry_ok w).
Proof. unfold registry_ok. apply _. Defined.

(** A registered connection: key, address, object. *)
Definition conn : Type := string * nat * client.Client.

(** The connections of the registry, in the order [Range] visits them. *)
Definition registered (w : world) : list conn :=
  omap (fun e => match entry_client (heap w) e with
                 | Some (p, c) => Some (e.1, p, c)
                 | None => None
                 end) (clients (this w)).

Definition snapshot_of (cs : list conn) : Map :=
  List.map (fun x : conn => (x.1.1, VClient x.1.2)) cs.

(** What one sweep over the connections [cs] does when the [n]-th [Write]
    of the sweep has outcome [sched n]; the first connection of [cs] gets
    number [n]. *)
Section sweep.
Variable data : payload.
Variable sched : nat -> client.select_outcome.

(** The results of the [Write] calls. *)
Fixpoint write_results (n : nat) (cs : list conn) : list (client.Client * error) :=
  match cs with
  | [] => []
  | (_, _, c) :: cs' => client.Write c data (sched n) :: write_results (S n) cs'
  end.

(** The [Write] calls themselves. *)
Fixpoint write_calls (n : nat) (cs : list conn) : list event :=
  match cs with
  | [] => []
  | (_, p, _) :: cs' => CallWrite p data (sched n) :: write_calls (S n) cs'
  end.

(** The keys of the connections whose own [Write] failed and left them
    at or over their tolerance. *)
Fixpoint evicted (n : nat) (cs : list conn) : list string :=
  match cs with
  | [] => []
  | (k, _, c) :: cs' =>
      match client.Write c data (sched n) with
      | (c', Some _) =>
          if client.ShouldDisconnect c' then k :: evicted (S n) cs'
          else evicted (S n) cs'
      | (_, None) => evicted (S n) cs'
      end
  end.

(** The heap once every connection has been written to. *)
Fixpoint written (n : nat) (cs : list conn) (h : list client.Client)
  : list client.Client :=
  match cs with
  | [] => h
  | (_, p, c) :: cs' =>
      written (S n) cs' (<[p := (client.Write c data (sched n)).1]> h)
  end.
End sweep.

(** The error messages among results, in order. *)
Definition failure_messages (rs : list (client.Client * error)) : list string :=
  omap snd rs.

(** No error for no message, else the messages joined by newlines. *)
Definition aggregate (msgs : list string) : error :=
  match msgs with
  | [] => None
  | _ => Some (String.concat newline msgs)
  end.

Definition remove_keys (ks : list string) (m : Map) : Map :=
  List.filter (fun e => negb (bool_decide (e.1 ∈ ks))) m.

(** The parts of the state no method of the broker changes. *)
Definition same_config (w w' : world) : Prop :=
  timeout (this w') = timeout (this w) /\
  tolerance (this w') = tolerance (this w) /\
  errorHandler (this w') = errorHandler (this w).

(** The identifiers of the objects on the heap. *)
Definition ids (h : list client.Client) : list string := List.map client.id h.

(** A method keeps the invariant, whether it returns or panics. *)
Definition keeps_ok {A} (m : M A) : Prop :=
  forall w, registry_ok w -> registry_ok (final (m w)).

(** One action on the broker: a call of a public method, a handler that
    goes on, or a close notification. *)
Inductive step : world -> world -> Prop :=
| step_Broadcast data sched w :
    step w (final (Broadcast data sched w))
| step_BroadcastTo id data o w :
    step w (final (BroadcastTo id data o w))
| step_EventHandler rw r sched w :
    step w (final (EventHandler rw r sched w))
| step_ClientHandler rw r xid evs w :
    step w (final (ClientHandler rw r xid evs w))
| step_resume evs h w :
    step w (final (ClientHandler_resume evs h w))
| step_close id w :
    step w (final (listenForClose id w)).

(** The states a broker made by [New] can get into. *)
Inductive reachable : world -> Prop :=
| reachable_New timeout tolerance eh :
    reachable (start (New timeout tolerance eh))
| reachable_step w w' :
    reachable w -> step w w' -> reachable w'.

End registry.

(** ** What a handler puts on the wire *)

Module stream.

Import broker.

(** How many payloads a handler takes from its queue while the environment
    goes through [evs], when [pending] payloads wait in the queue.
    [registered] tells whether the handler's client is in the registry; once
    it is not, the case that fires next is the last one. *)
Fixpoint taken (registered : bool) (pending : nat) (evs : list loop_event) : nat :=
  match evs with
  | [] => O
  | CloseNotified :: evs' => taken false pending evs'
  | Received :: evs' =>
      match pending with
      | O => taken registered O evs'
      | S pending' => S (if registered then taken true pending' evs' else O)
      end
  | Ticked :: evs' => if registered then taken true pending evs' else O
  end.

(** One write of one frame and one flush for each payload. *)
Definition frames (ps : list payload) : list wire_op :=
  flat_map (fun data => [OpWrite (frame data); OpFlush]) ps.

Definition writer_of (st : handler_status) : ResponseWriter :=
  match st with
  | Returned w => w
  | Waiting h => h_w h
  end.

(** The tail of [EventHandler], from the error of the broadcast on. *)
Definition respond (w : ResponseWriter) (r : Request) (err : error) : M ResponseWriter :=
  match err with
  | Some e => httpError w r e StatusInternalServerError
  | None => ret (call (OpWriteHeader StatusOK) w)
  end.

Definition is_CallWrite (e : event) : Prop :=
  match e with
  | CallWrite _ _ _ => True
  | _ => False
  end.

(** The calls a method adds to the history are calls of [Write] only. *)
Definition logs_writes {A} (m : M A) : Prop :=
  forall w, exists evs,
    history (final (m w)) = history w ++ evs /\ Forall is_CallWrite evs.

(** The headers [ClientHandler] sets before it creates the client. *)
Definition event_stream (w : ResponseWriter) : ResponseWriter :=
  Header_Set "Access-Control-Allow-Origin" "*"
    (Header_Set "Connection" "keep-alive"
       (Header_Set "Cache-Control" "no-cache"
          (Header_Set "Content-Type" "text/event-stream" w))).

End stream.

(** ** Concrete states, after the tests of the repository *)

Module examples.

Import syncmap broker.

(** A response writer with both capabilities, as the test recorder of
    the broker tests. *)
Definition recorder : ResponseWriter := mkWriter true true [] [].

Definition connect (id : string) : Request := mkRequest [("id", [id])] ([], None).

Definition hello : payload := list_byte_of_string "hello world".

(** A broker with one second of timeout and a tolerance of three. *)
Definition fresh : world := start (New 1000000000 3 None).

(** ... with the clients 1234 and 5678 connected. *)
Definition one_client : world :=
  final (ClientHandler recorder (connect "1234") "" [] fresh).

Definition two_clients : world :=
  final (ClientHandler recorder (connect "5678") "" [] one_client).

(** The handler of client 1234, waiting. *)
Definition handler_1234 : handler :=
  mkHandler (stream.event_stream recorder) true (Some O) "1234" O.

(** A broker whose tolerance is one. *)
Definition strict : world :=
  final (ClientHandler recorder (connect "1234") "" [] (start (New 1000000000 1 None))).

(** A registry with a value that is not a client, between two clients. *)
Definition corrupted : world :=
  mkWorld
    (mkBroker 1000000000
       [("1234", VClient 0); ("oops", VOther); ("5678", VClient 1)] None 3)
    [client.New 1000000000 3 "1234" ""; client.New 1000000000 3 "5678" ""] [].

Definition all_time_out : nat -> client.select_outcome := fun _ => client.TimedOut.

Definition all_sent : nat -> client.select_outcome := fun _ => client.Sent.

(** Client 1234 connected and one broadcast handed over to it. *)
Definition delivered : world := final (Broadcast hello all_sent one_client).

End examples.

(** ** Runs of several calls *)

Module runs.

Import syncmap broker registry.

(** A series of [Write] calls on one client, each with its payload and the
    outcome of its [select]. *)
Fixpoint writes (c : client.Client) (ws : list (payload * client.select_outcome))
  : client.Client :=
  match ws with
  | [] => c
  | (data, o) :: ws' => writes (client.Write c data o).1 ws'
  end.

(** The payloads of the calls whose send was taken, in the order of the
    calls. *)
Definition handed_over (ws : list (payload * client.select_outcome)) : list payload :=
  omap (fun x : payload * client.select_outcome =>
          match x.2 with
          | client.Sent => Some x.1
          | client.TimedOut => None
          end) ws.

(** The number of timeouts since the last success, [n] of them before the
    series starts. *)
Fixpoint streak (n : nat) (ws : list (payload * client.select_outcome)) : nat :=
  match ws with
  | [] => n
  | (_, client.Sent) :: ws' => streak O ws'
  | (_, client.TimedOut) :: ws' => streak (S n) ws'
  end.

(** [http.Header.Get]: the first value stored under the key, or the empty
    string. *)
Definition Header_Get (key : string) (w : ResponseWriter) : string :=
  match List.find (fun e => bool_decide (e.1 = key)) (header w) with
  | Some (_, v) => v
  | None => ""
  end.

(** One [Broadcast] after the other, one per payload, in which every
    [Write] times out. *)
Definition failed_broadcasts (ds : list payload) (w : world) : world :=
  foldl (fun w data => final (Broadcast data (fun _ => client.TimedOut) w)) w ds.

(** One [BroadcastTo] after the other to the same identifier, each with its
    payload and the outcome of its [select]. *)
Definition unicasts (id : string) (ws : list (payload * client.select_outcome))
    (w : world) : world :=
  foldl (fun w (x : payload * client.select_outcome) =>
           final (BroadcastTo id x.1 x.2 w)) w ws.

(** A method registers nothing and creates nothing: whether it returns or
    panics, the keys of the registry afterwards were keys before, the heap
    holds the same objects under the same identifiers, and the configuration
    of the broker is the same. *)
Definition adds_nothing {A} (m : M A) : Prop :=
  forall w,
    keys (clients (this (final (m w)))) ⊆ keys (clients (this w)) /\
    ids (heap (final (m w))) = ids (heap w) /\
    same_config w (final (m w)).

(** Every client object carries the timeout and the tolerance of the
    broker. *)
Definition inherits (w : world) : Prop :=
  Forall (fun c => client.timeout c = timeout (this w) /\
                   client.tolerance c = tolerance (this w)) (heap w).

(** A method keeps a property of the state, whether it returns or
    panics. *)
Definition keeps (I : world -> Prop) {A} (m : M A) : Prop :=
  forall w, I w -> I (final (m w)).

(** A method returns in the given state. *)
Definition returns {A} (m : M A) (w : world) : Prop :=
  exists a w', m w = Ok a w'.

End runs.

(** * Properties *)

Import syncmap broker registry stream runs.

(** ** Go's [int] *)

Lemma wrap_in_range z : goint.in_range z -> goint.wrap z = z.
Proof.
  unfold goint.in_range, goint.min_int, goint.max_int, goint.wrap. intros Hz.
  rewrite Z.mod_small; lia.
Qed.

Lemma incr_below_max x :
  goint.min_int <= x < goint.max_int -> goint.incr x = x + 1.
Proof.
  unfold goint.incr. intros Hx. apply wrap_in_range.
  unfold goint.in_range in *. lia.
Qed.

Lemma incr_max : goint.incr goint.max_int = goint.min_int.
Proof. reflexivity. Qed.

(** ** [client.Write] and [client.ShouldDisconnect] *)

Lemma New_notify timeout tolerance id xid :
  client.notify (client.New timeout tolerance id xid) = [].
Proof. unfold client.New. by destruct (decide (id = "")). Qed.

Lemma Write_keeps_id c data o : client.id (client.Write c data o).1 = client.id c.
Proof. by destruct o. Qed.

Lemma Write_keeps_tolerance c data o :
  client.tolerance (client.Write c data o).1 = client.tolerance c.
Proof. by destruct o. Qed.

Lemma timeouts_keep_tolerance k : forall c data,
  client.tolerance (client.timeouts k c data) = client.tolerance c.
Proof.
  induction k as [|k IH]; intros c data; simpl; [done|].
  by rewrite IH.
Qed.

(** Starting from a counter at zero, [k] timeouts in a row leave the counter
    at [k], as long as [k] fits an [int]. *)
Lemma timeouts_count k : forall c data,
  0 <= client.failures c ->
  client.failures c + Z.of_nat k <= goint.max_int ->
  client.failures (client.timeouts k c data) = client.failures c + Z.of_nat k.
Proof.
  induction k as [|k IH]; intros c data Hlo Hhi; simpl client.timeouts.
  - lia.
  - rewrite IH; simpl.
    + rewrite incr_below_max; unfold goint.min_int; lia.
    + rewrite incr_below_max; unfold goint.min_int; lia.
    + rewrite incr_below_max; unfold goint.min_int; lia.
Qed.

(** C5. [Write] has exactly two outcomes.  When the send is taken, the
    payload is handed over once and whole, the failure counter is reset to 0
    and no error is returned.  When the timer fires, nothing is handed over,
    the failure counter is incremented and the error names the connection.
    Identifier, timeout and tolerance are never touched. *)
Theorem Write_hands_off_or_times_out (c : client.Client) (data : payload)
    (o : client.select_outcome) :
  let c' := (client.Write c data o).1 in
  let err := (client.Write c data o).2 in
  client.id c' = client.id c /\
  client.timeout c' = client.timeout c /\
  client.tolerance c' = client.tolerance c /\
  ((o = client.Sent /\ err = None /\
    client.failures c' = 0 /\
    client.notify c' = client.notify c ++ [data])
   \/
   (o = client.TimedOut /\
    err = Some ("failed to write to client " +:+ client.id c +:+ ", timeout exceeded") /\
    client.failures c' = goint.incr (client.failures c) /\
    (goint.min_int <= client.failures c < goint.max_int ->
     client.failures c' = client.failures c + 1) /\
    client.notify c' = client.notify c)).
Proof.
  destruct o; simpl; repeat split; try done.
  - left. done.
  - right. repeat split; try done. apply incr_below_max.
Qed.

Lemma Write_hands_off_or_times_out_witness :
  client.failures
    (client.Write (client.New 1000 3 "1234" "") [x68; x69]%byte client.TimedOut).1 = 1.
Proof.
  pose proof (Write_hands_off_or_times_out
                (client.New 1000 3 "1234" "") [x68; x69]%byte client.TimedOut) as H.
  simpl in H. destruct H as (_ & _ & _ & [H | H]).
  - destruct H as [H _]. discriminate H.
  - destruct H as (_ & _ & _ & H & _). apply H. vm_compute. split; [discriminate | reflexivity].
Defined.

(** C4, as the claim states it, fails for a tolerance of zero: the fresh
    connection is already flagged. *)
Lemma ShouldDisconnect_zero_tolerance :
  client.ShouldDisconnect (client.New 1000 0 "1234" "") = true.
Proof. reflexivity. Qed.

(** C4, amended.  For every timeout and every tolerance of at least one:
    [ShouldDisconnect] is false right after [New] and after every successful
    [Write]; and on a connection whose counter is at zero (fresh, or just
    written to with success), after [k] timed-out [Write] calls in a row it
    is true exactly when [k] has reached the tolerance. *)
Theorem ShouldDisconnect_exactly_at_tolerance (timeout tolerance : Z) (id xid : string) :
  0 < tolerance ->
  client.ShouldDisconnect (client.New timeout tolerance id xid) = false /\
  (forall c data,
      client.tolerance c = tolerance ->
      client.ShouldDisconnect (client.Write c data client.Sent).1 = false) /\
  (forall c data (k : nat),
      client.tolerance c = tolerance ->
      client.failures c = 0 ->
      Z.of_nat k <= goint.max_int ->
      client.ShouldDisconnect (client.timeouts k c data)
      = bool_decide (tolerance <= Z.of_nat k)).
Proof.
  intros Htol. split; [|split].
  - unfold client.New, client.ShouldDisconnect.
    destruct (decide (id = "")); simpl; lia.
  - intros c data Hc. unfold client.ShouldDisconnect. simpl. lia.
  - intros c data k Hc Hf Hk. unfold client.ShouldDisconnect.
    rewrite timeouts_keep_tolerance, timeouts_count by lia.
    rewrite Hc, Hf. case_bool_decide; lia.
Qed.

Lemma ShouldDisconnect_exactly_at_tolerance_witness :
  client.ShouldDisconnect (client.New 1000 3 "1234" "") = false /\
  client.ShouldDisconnect
    (client.timeouts 3 (client.New 1000 3 "1234" "") [x68]%byte) = true.
Proof.
  assert (H : 0 < 3) by lia.
  destruct (ShouldDisconnect_exactly_at_tolerance 1000 3 "1234" "" H) as (H1 & _ & H3).
  split; [exact H1|].
  rewrite (H3 (client.New 1000 3 "1234" "") [x68]%byte 3%nat); [reflexivity..|].
  vm_compute. discriminate.
Defined.

(** ** The registry as a map *)

Lemma Load_cons k e m :
  Load k (e :: m) = if bool_decide (e.1 = k) then Some e.2 else Load k m.
Proof. unfold Load. simpl. by case_bool_decide. Qed.

Lemma Load_None k m : Load k m = None <-> k ∉ keys m.
Proof.
  induction m as [|e m IH]; simpl.
  - split; [intros _; apply not_elem_of_nil | done].
  - rewrite Load_cons, not_elem_of_cons. case_bool_decide as Hk.
    + split; [done | intros [Hne _]; congruence].
    + rewrite IH. split; [intros Hn; split; [congruence | done] | by intros [_ Hn]].
Qed.

Lemma Load_Some_elem k v m : Load k m = Some v -> (k, v) ∈ m.
Proof.
  induction m as [|[k' v'] m IH]; [done|].
  rewrite Load_cons. simpl. case_bool_decide as Hk; intros Hl.
  - simplify_eq. left.
  - right. auto.
Qed.

Lemma elem_keys (k : string) (v : value) (m : Map) : (k, v) ∈ m -> k ∈ keys m.
Proof. intros H. unfold keys. apply list_elem_of_In, in_map_iff. exists (k, v). split; [done|]. by apply list_elem_of_In. Qed.

Lemma Load_elem k v m : NoDup (keys m) -> (k, v) ∈ m -> Load k m = Some v.
Proof.
  induction m as [|[k' v'] m IH]; intros Hnd Hin.
  - by apply elem_of_nil in Hin.
  - simpl in Hnd. apply NoDup_cons in Hnd as [Hk' Hnd].
    rewrite Load_cons. simpl. apply elem_of_cons in Hin as [Heq | Hin].
    + simplify_eq. by rewrite bool_decide_true.
    + rewrite bool_decide_false; [auto|].
      intros ->. apply Hk'. by eapply elem_keys.
Qed.

Lemma Delete_cons k e m :
  Delete k (e :: m) = if bool_decide (e.1 = k) then Delete k m else e :: Delete k m.
Proof. unfold Delete. simpl. by case_bool_decide. Qed.

Lemma Load_Delete_eq k m : Load k (Delete k m) = None.
Proof.
  induction m as [|e m IH]; [done|].
  rewrite Delete_cons. case_bool_decide; [done|].
  rewrite Load_cons. by rewrite bool_decide_false.
Qed.

Lemma Load_Delete_ne k k' m : k <> k' -> Load k (Delete k' m) = Load k m.
Proof.
  intros Hne. induction m as [|e m IH]; [done|].
  rewrite Delete_cons, Load_cons. case_bool_decide.
  - rewrite bool_decide_false by congruence. done.
  - rewrite Load_cons. by rewrite IH.
Qed.

Lemma elem_of_Delete e k m : e ∈ Delete k m <-> e ∈ m /\ e.1 <> k.
Proof.
  unfold Delete. rewrite !list_elem_of_In, filter_In.
  rewrite negb_true_iff, bool_decide_eq_false. done.
Qed.

Lemma keys_Delete_subseteq k m : keys (Delete k m) ⊆ keys m.
Proof.
  induction m as [|e m IH]; [done|].
  rewrite Delete_cons. case_bool_decide; simpl.
  - intros x Hx. right. by apply IH.
  - intros x. rewrite !elem_of_cons. intros [Hx | Hx]; [by left | right; by apply IH].
Qed.

Lemma NoDup_keys_Delete k m : NoDup (keys m) -> NoDup (keys (Delete k m)).
Proof.
  induction m as [|e m IH]; [done|]. intros Hnd.
  change (keys (e :: m)) with (e.1 :: keys m) in Hnd.
  apply NoDup_cons in Hnd as [Hn Hnd].
  rewrite Delete_cons. case_bool_decide as Hk; [auto|].
  change (keys (e :: Delete k m)) with (e.1 :: keys (Delete k m)).
  apply NoDup_cons. split; [|auto].
  intros Hin. apply Hn. by apply (keys_Delete_subseteq k).
Qed.

Lemma remove_keys_nil m : remove_keys [] m = m.
Proof.
  unfold remove_keys. induction m as [|e m IH]; [done|].
  cbn [List.filter]. rewrite IH.
  destruct (bool_decide (e.1 ∈ [])) eqn:Hk; [|done].
  apply bool_decide_eq_true in Hk. by apply elem_of_nil in Hk.
Qed.

Lemma remove_keys_Delete k ks m : remove_keys ks (Delete k m) = remove_keys (k :: ks) m.
Proof.
  unfold remove_keys, Delete. induction m as [|e m IH]; [done|]. cbn [List.filter].
  destruct (bool_decide (e.1 = k)) eqn:Hk; cbn [negb List.filter].
  - apply bool_decide_eq_true in Hk. rewrite (bool_decide_true (e.1 ∈ k :: ks)).
    + done.
    + rewrite Hk. left.
  - apply bool_decide_eq_false in Hk. rewrite IH.
    destruct (bool_decide (e.1 ∈ ks)) eqn:Hks.
    + apply bool_decide_eq_true in Hks. rewrite (bool_decide_true (e.1 ∈ k :: ks)); [done|]. by right.
    + apply bool_decide_eq_false in Hks. rewrite (bool_decide_false (e.1 ∈ k :: ks)); [done|].
      rewrite elem_of_cons. intros [Hx | Hx]; congruence.
Qed.

(** ** Running the methods *)

Lemma same_config_refl w : same_config w w.
Proof. by repeat split. Qed.

Lemma same_config_trans w1 w2 w3 :
  same_config w1 w2 -> same_config w2 w3 -> same_config w1 w3.
Proof. unfold same_config. intros (?&?&?) (?&?&?). repeat split; congruence. Qed.

Ltac run :=
  unfold listenForClose, removeClient, hasClient, Client_ID,
    Client_ShouldDisconnect, clients_Load, clients_Delete, clients_Store,
    get_clients, set_clients, record, deref, assign, panic, bind, ret; simpl.

Lemma remove_keys_single k m : remove_keys [k] m = Delete k m.
Proof. by rewrite <- remove_keys_Delete, remove_keys_nil. Qed.

(** One call of the closure of [Broadcast] on an entry that holds a client. *)
Lemma Broadcast_visit_client data sched key p c out n w :
  heap w !! p = Some c ->
  exists w',
    Broadcast_visit data sched key (VClient p) (out, n) w
    = Ok (true, (out ++ failure_messages [client.Write c data (sched n)], S n)) w' /\
    heap w' = <[p := (client.Write c data (sched n)).1]> (heap w) /\
    history w' = history w ++ [CallWrite p data (sched n)] /\
    clients (this w')
    = remove_keys (evicted data sched n [(client.id c, p, c)]) (clients (this w)) /\
    same_config w w'.
Proof.
  intros Hp. pose proof (lookup_lt_Some _ _ _ Hp) as Hlt.
  unfold Broadcast_visit, Client_Write. run. rewrite Hp. simpl.
  destruct (sched n) eqn:Ho; simpl.
  - eexists. split; [by rewrite app_nil_r|]. simpl. rewrite remove_keys_nil.
    repeat split; done.
  - rewrite list_lookup_insert_eq by done. simpl.
    destruct (client.ShouldDisconnect _) eqn:Hsd; simpl.
    + rewrite list_lookup_insert_eq by done. simpl.
      eexists. split; [done|]. simpl. rewrite remove_keys_single.
      repeat split; done.
    + eexists. split; [done|]. simpl. rewrite remove_keys_nil.
      repeat split; done.
Qed.

Lemma evicted_single data sched n k p c :
  evicted data sched n [(k, p, c)] = [] \/ evicted data sched n [(k, p, c)] = [k].
Proof.
  simpl. destruct (client.Write c data (sched n)) as [c' [e|]]; [|by left].
  destruct (client.ShouldDisconnect c'); [by right | by left].
Qed.

Lemma evicted_cons data sched n k p c cs :
  evicted data sched n ((k, p, c) :: cs)
  = evicted data sched n [(k, p, c)] ++ evicted data sched (S n) cs.
Proof.
  simpl. destruct (client.Write c data (sched n)) as [c' [e|]]; [|done].
  by destruct (client.ShouldDisconnect c').
Qed.

Lemma remove_keys_app ks1 ks2 m :
  remove_keys (ks1 ++ ks2) m = remove_keys ks2 (remove_keys ks1 m).
Proof.
  unfold remove_keys. induction m as [|e m IH]; [done|]. cbn [List.filter].
  rewrite IH. clear IH.
  destruct (bool_decide (e.1 ∈ ks1)) eqn:H1; cbn [negb List.filter].
  - apply bool_decide_eq_true in H1.
    rewrite (bool_decide_true (e.1 ∈ ks1 ++ ks2)); [done|].
    apply elem_of_app. by left.
  - apply bool_decide_eq_false in H1.
    destruct (bool_decide (e.1 ∈ ks2)) eqn:H2.
    + apply bool_decide_eq_true in H2.
      rewrite (bool_decide_true (e.1 ∈ ks1 ++ ks2)); [done|].
      apply elem_of_app. by right.
    + apply bool_decide_eq_false in H2.
      rewrite (bool_decide_false (e.1 ∈ ks1 ++ ks2)); [done|].
      rewrite elem_of_app. by intros [?|?].
Qed.

Lemma Load_remove_keys k ks m : k ∉ ks -> Load k (remove_keys ks m) = Load k m.
Proof.
  intros Hk. induction ks as [|k' ks IH] in m, Hk |- *.
  - by rewrite remove_keys_nil.
  - apply not_elem_of_cons in Hk as [Hne Hk].
    rewrite <- remove_keys_Delete, IH by done. by apply Load_Delete_ne.
Qed.

(** [Range] over entries that all hold clients stored under their own ID:
    every one of them is visited, whatever is evicted on the way, and the
    walk goes on with what follows them. *)
Lemma Range_from_sweep_then data sched cs : forall w out n,
  NoDup (keys (snapshot_of cs)) ->
  (forall k p c, (k, p, c) ∈ cs ->
     Load k (clients (this w)) = Some (VClient p) /\
     heap w !! p = Some c /\ client.id c = k) ->
  exists w',
    (forall tail,
       Range_from (snapshot_of cs ++ tail) (Broadcast_visit data sched) (out, n) w
       = Range_from tail (Broadcast_visit data sched)
           (out ++ failure_messages (write_results data sched n cs),
            (n + length cs)%nat) w') /\
    heap w' = written data sched n cs (heap w) /\
    history w' = history w ++ write_calls data sched n cs /\
    clients (this w') = remove_keys (evicted data sched n cs) (clients (this w)) /\
    same_config w w'.
Proof.
  induction cs as [|[[k p] c] cs IH]; intros w out n Hnd Hcs.
  - exists w. simpl. rewrite !app_nil_r, remove_keys_nil, Nat.add_0_r.
    repeat split; done.
  - change (keys (snapshot_of ((k, p, c) :: cs)))
      with (k :: keys (snapshot_of cs)) in Hnd.
    apply NoDup_cons in Hnd as [Hk Hnd].
    destruct (Hcs k p c) as (Hload & Hp & Hid); [left|].
    destruct (Broadcast_visit_client data sched k p c out n w Hp)
      as (w1 & Hrun & Hheap1 & Hhist1 & Hcl1 & Hcfg1).
    assert (Hrest : forall k' p' c', (k', p', c') ∈ cs ->
              Load k' (clients (this w1)) = Some (VClient p') /\
              heap w1 !! p' = Some c' /\ client.id c' = k').
    { intros k' p' c' Hin. destruct (Hcs k' p' c') as (Hl' & Hp' & Hid'); [by right|].
      assert (Hne : k' <> k).
      { intros ->. apply Hk. apply list_elem_of_In, in_map_iff.
        exists (k, VClient p'). split; [done|]. apply in_map_iff.
        exists (k, p', c'). split; [done|]. by apply list_elem_of_In. }
      split; [|split; [|done]].
      - rewrite Hcl1, Hid. rewrite Load_remove_keys; [done|].
        destruct (evicted_single data sched n k p c) as [-> | ->].
        + apply not_elem_of_nil.
        + apply not_elem_of_cons. split; [done | apply not_elem_of_nil].
      - rewrite Hheap1. rewrite list_lookup_insert_ne; [done|].
        intros ->. congruence. }
    destruct (IH w1 (out ++ failure_messages [client.Write c data (sched n)]) (S n)
                Hnd Hrest) as (w' & Hrun' & Hheap' & Hhist' & Hcl' & Hcfg').
    assert (Hacc :
      ((out ++ failure_messages [client.Write c data (sched n)])
         ++ failure_messages (write_results data sched (S n) cs),
       (S n + length cs)%nat)
      = (out ++ failure_messages (write_results data sched n ((k, p, c) :: cs)),
         (n + length ((k, p, c) :: cs))%nat)).
    { assert (Hn : (n + length ((k, p, c) :: cs))%nat = (S n + length cs)%nat).
      { simpl. by rewrite Nat.add_succ_r. }
      rewrite Hn.
      f_equal. cbn [write_results]. unfold failure_messages. cbn [omap].
      destruct (client.Write c data (sched n)) as [c1 [e|]]; simpl; [|by rewrite app_nil_r].
      by rewrite <- app_assoc. }
    exists w'. split; [|split; [|split; [|split]]].
    + intros tail.
      change (snapshot_of ((k, p, c) :: cs) ++ tail)
        with ((k, VClient p) :: (snapshot_of cs ++ tail)).
      cbn [Range_from]. unfold bind at 1, clients_Load.
      unfold bind at 1, get_clients, ret. cbn [fst snd]. rewrite Hload.
      unfold bind at 1. rewrite Hrun. cbv beta iota. rewrite Hrun', Hacc. done.
    + rewrite Hheap', Hheap1. done.
    + rewrite Hhist', Hhist1, <- app_assoc. done.
    + rewrite Hcl', Hcl1, Hid, <- remove_keys_app, <- evicted_cons. done.
    + by eapply same_config_trans.
Qed.

Lemma Range_from_sweep data sched cs w out n :
  NoDup (keys (snapshot_of cs)) ->
  (forall k p c, (k, p, c) ∈ cs ->
     Load k (clients (this w)) = Some (VClient p) /\
     heap w !! p = Some c /\ client.id c = k) ->
  exists w',
    Range_from (snapshot_of cs) (Broadcast_visit data sched) (out, n) w
    = Ok (out ++ failure_messages (write_results data sched n cs),
          (n + length cs)%nat) w' /\
    heap w' = written data sched n cs (heap w) /\
    history w' = history w ++ write_calls data sched n cs /\
    clients (this w') = remove_keys (evicted data sched n cs) (clients (this w)) /\
    same_config w w'.
Proof.
  intros Hnd Hcs.
  destruct (Range_from_sweep_then data sched cs w out n Hnd Hcs)
    as (w' & Hrun & Hrest).
  exists w'. split; [|exact Hrest].
  specialize (Hrun []). rewrite app_nil_r in Hrun. rewrite Hrun. done.
Qed.

(** ** Registries that satisfy the invariant *)

Lemma entry_ok_inv h e :
  entry_ok h e <->
  exists p c, e.2 = VClient p /\ h !! p = Some c /\ client.id c = e.1.
Proof.
  unfold entry_ok, entry_client. destruct e as [k [p|]]; simpl.
  - destruct (h !! p) as [c|] eqn:Hp.
    + split; [intros H; by exists p, c|]. intros (p' & c' & Heq & Hp' & Hid).
      simplify_eq. done.
    + split; [done|]. intros (p' & c' & Heq & Hp' & Hid). simplify_eq.
  - split; [done|]. intros (p' & c' & Heq & _). discriminate.
Qed.

Lemma registered_snapshot_of h m :
  Forall (entry_ok h) m ->
  snapshot_of
    (omap (fun e => match entry_client h e with
                    | Some (p, c) => Some (e.1, p, c)
                    | None => None
                    end) m) = m.
Proof.
  induction 1 as [|[k v] m He Hm IH]; [done|].
  apply entry_ok_inv in He as (p & c & He2 & Hp & Hid). simpl in He2, Hid. subst v.
  simpl. unfold entry_client at 1. simpl. rewrite Hp. simpl. f_equal. apply IH.
Qed.

Lemma registered_snapshot w :
  registry_ok w -> snapshot_of (registered w) = clients (this w).
Proof. intros [_ H]. by apply registered_snapshot_of. Qed.

Lemma registered_elem w k p c :
  registry_ok w -> (k, p, c) ∈ registered w ->
  Load k (clients (this w)) = Some (VClient p) /\
  heap w !! p = Some c /\ client.id c = k.
Proof.
  intros [Hnd Hok] Hin. unfold registered in Hin.
  apply list_elem_of_omap in Hin as (e & He & Hf).
  rewrite Forall_forall in Hok. specialize (Hok e He).
  apply entry_ok_inv in Hok as (p' & c' & He2 & Hp & Hid).
  destruct e as [k' v]. simpl in He2, Hid. subst v.
  unfold entry_client in Hf. cbn [fst snd] in Hf. rewrite Hp in Hf. simplify_eq.
  split; [|done]. by apply Load_elem.
Qed.

Lemma aggregate_length (out : list string) (w : world) :
  (if (0 <? length out)%nat then ret (Some (String.concat newline out))
   else ret None) w
  = Ok (aggregate out) w.
Proof. by destruct out. Qed.

(** What [Broadcast] does in a state that satisfies the invariant. *)
Lemma Broadcast_sweep w data sched :
  registry_ok w ->
  exists w',
    Broadcast data sched w
    = Ok (aggregate (failure_messages (write_results data sched 0 (registered w)))) w' /\
    heap w' = written data sched 0 (registered w) (heap w) /\
    history w'
    = history w ++ CallBroadcast data :: write_calls data sched 0 (registered w) /\
    clients (this w')
    = remove_keys (evicted data sched 0 (registered w)) (clients (this w)) /\
    same_config w w'.
Proof.
  intros Hok.
  set (w0 := mkWorld (this w) (heap w) (history w ++ [CallBroadcast data])).
  destruct (Range_from_sweep data sched (registered w) w0 [] 0%nat)
    as (w' & Hrun & Hheap & Hhist & Hcl & Hcfg).
  { rewrite registered_snapshot by done. apply Hok. }
  { intros k p c Hin. by apply registered_elem. }
  exists w'. split; [|split; [|split; [|split]]]; try done.
  - unfold Broadcast, Range. unfold bind at 1, record. fold w0.
    unfold bind at 1. unfold bind at 1, get_clients.
    change (clients (this w0)) with (clients (this w)).
    rewrite <- (registered_snapshot w Hok) at 1. rewrite Hrun.
    cbv beta iota. rewrite app_nil_l, aggregate_length. done.
  - rewrite Hhist. simpl. by rewrite <- app_assoc.
Qed.

Lemma map_fmap {A B} (f : A -> B) (l : list A) : List.map f l = f <$> l.
Proof. reflexivity. Qed.

(** The identifiers of the objects on the heap never change. *)

Lemma ids_insert h p c c' :
  h !! p = Some c -> client.id c' = client.id c -> ids (<[p := c']> h) = ids h.
Proof.
  intros Hp Hid. unfold ids. rewrite !map_fmap. 
  rewrite list_fmap_insert, Hid. apply list_insert_id.
  by rewrite list_lookup_fmap, Hp.
Qed.

Lemma ids_lookup h h' p c :
  ids h' = ids h -> h !! p = Some c ->
  exists c', h' !! p = Some c' /\ client.id c' = client.id c.
Proof.
  unfold ids. rewrite !map_fmap. intros Hids Hp.
  assert (H : (client.id <$> h') !! p = Some (client.id c)).
  { by rewrite Hids, list_lookup_fmap, Hp. }
  rewrite list_lookup_fmap in H. destruct (h' !! p) as [c'|]; [|done].
  exists c'. simpl in H. by simplify_eq.
Qed.

Lemma entry_ok_ids h h' e : ids h' = ids h -> entry_ok h e -> entry_ok h' e.
Proof.
  intros Hids. rewrite !entry_ok_inv. intros (p & c & He & Hp & Hid).
  destruct (ids_lookup h h' p c Hids Hp) as (c' & Hp' & Hid').
  exists p, c'. repeat split; [done..|congruence].
Qed.

Lemma ids_written data sched cs : forall n h,
  (forall k p c, (k, p, c) ∈ cs ->
     exists c0, h !! p = Some c0 /\ client.id c0 = client.id c) ->
  ids (written data sched n cs h) = ids h.
Proof.
  induction cs as [|[[k p] c] cs IH]; intros n h Hcs; [done|].
  destruct (Hcs k p c) as (c0 & Hp & Hid); [left|].
  assert (Hins : ids (<[p := (client.Write c data (sched n)).1]> h) = ids h).
  { eapply ids_insert; [done|]. by rewrite Write_keeps_id. }
  cbn [written]. rewrite IH; [done|].
  intros k' p' c' Hin. destruct (Hcs k' p' c') as (c1 & Hp' & Hid'); [by right|].
  destruct (ids_lookup _ _ p' c1 Hins Hp') as (c2 & Hp2 & Hid2).
  exists c2. split; [done|congruence].
Qed.

Lemma written_length data sched cs : forall n h,
  length (written data sched n cs h) = length h.
Proof.
  induction cs as [|[[k p] c] cs IH]; intros n h; [done|].
  cbn [written]. by rewrite IH, length_insert.
Qed.

Lemma written_other data sched cs : forall n h q,
  (forall k p c, (k, p, c) ∈ cs -> p <> q) ->
  written data sched n cs h !! q = h !! q.
Proof.
  induction cs as [|[[k p] c] cs IH]; intros n h q Hq; [done|].
  cbn [written]. rewrite IH.
  - apply list_lookup_insert_ne. apply (Hq k p c). left.
  - intros k' p' c' Hin. apply (Hq k' p' c'). by right.
Qed.

(** Each connection is left as its own [Write] leaves it. *)
Lemma written_lookup data sched cs : forall n h i k p c,
  (forall i j x y, cs !! i = Some x -> cs !! j = Some y -> x.1.2 = y.1.2 -> i = j) ->
  (forall k p c, (k, p, c) ∈ cs -> (p < length h)%nat) ->
  cs !! i = Some (k, p, c) ->
  written data sched n cs h !! p
  = Some (client.Write c data (sched (n + i)%nat)).1.
Proof.
  induction cs as [|[[k0 p0] c0] cs IH]; intros n h i k p c Hinj Hlen Hi; [done|].
  cbn [written]. destruct i as [|i].
  - simpl in Hi. simplify_eq. rewrite Nat.add_0_r.
    rewrite written_other.
    + apply list_lookup_insert_eq. apply (Hlen k p c). left.
    + intros k' p' c' Hin ->. apply list_elem_of_lookup in Hin as [j Hj].
      specialize (Hinj 0%nat (S j) (k, p, c) (k', p, c') eq_refl Hj eq_refl). done.
  - simpl in Hi. rewrite (IH (S n) _ i k p c).
    + replace (S n + i)%nat with (n + S i)%nat by lia. done.
    + intros i' j' x y Hx Hy Hxy. 
      specialize (Hinj (S i') (S j') x y Hx Hy Hxy). lia.
    + intros k' p' c' Hin. rewrite length_insert. apply (Hlen k' p' c'). by right.
    + done.
Qed.

Lemma keys_snapshot_lookup (cs : list conn) : forall i,
  keys (snapshot_of cs) !! i = (fun x : conn => x.1.1) <$> cs !! i.
Proof.
  induction cs as [|x cs IH]; intros [|i]; simpl; try done.
Qed.

Lemma registered_pointers_distinct w i j x y :
  registry_ok w ->
  registered w !! i = Some x -> registered w !! j = Some y ->
  x.1.2 = y.1.2 -> i = j.
Proof.
  intros Hok Hi Hj Hxy. destruct x as [[k p] c], y as [[k' p'] c']. simpl in Hxy. subst p'.
  destruct (registered_elem w k p c Hok) as (_ & Hp & Hid);
    [by eapply list_elem_of_lookup_2|].
  destruct (registered_elem w k' p c' Hok) as (_ & Hp' & Hid');
    [by eapply list_elem_of_lookup_2|].
  assert (k = k') by congruence. subst k'.
  assert (Hnd : NoDup (keys (clients (this w)))) by apply Hok.
  rewrite <- (registered_snapshot w Hok) in Hnd.
  eapply NoDup_lookup; [exact Hnd| |].
  - rewrite keys_snapshot_lookup. apply fmap_Some. eexists. split; [exact Hi | done].
  - rewrite keys_snapshot_lookup. apply fmap_Some. eexists. split; [exact Hj | simpl; congruence].
Qed.

(** ** The invariant is kept by every method *)

Lemma keeps_ok_ret {A} (a : A) : keeps_ok (ret a).
Proof. by intros w Hw. Qed.

Lemma keeps_ok_panic {A} msg : keeps_ok (@panic A msg).
Proof. by intros w Hw. Qed.

Lemma keeps_ok_bind {A B} (m : M A) (k : A -> M B) :
  keeps_ok m -> (forall a, keeps_ok (k a)) -> keeps_ok (bind m k).
Proof.
  intros Hm Hk w Hw. unfold bind. specialize (Hm w Hw).
  destruct (m w) as [a w'|msg w']; simpl in *; [by apply Hk | done].
Qed.

Lemma keeps_ok_get_clients : keeps_ok get_clients.
Proof. by intros w Hw. Qed.

Lemma keeps_ok_record e : keeps_ok (record e).
Proof. by intros w Hw. Qed.

Lemma keeps_ok_deref client : keeps_ok (deref client).
Proof.
  intros w Hw. unfold deref. destruct client as [p|]; [|done].
  by destruct (heap w !! p).
Qed.

Lemma keeps_ok_alloc c : keeps_ok (alloc c).
Proof.
  intros w [Hnd Hok]. split; [done|]. simpl.
  eapply Forall_impl; [exact Hok|]. intros e. rewrite !entry_ok_inv.
  intros (p & c' & He & Hp & Hid). exists p, c'. repeat split; try done.
  by apply lookup_app_l_Some.
Qed.

Lemma keeps_ok_httpError rw r err code : keeps_ok (httpError rw r err code).
Proof. intros w Hw. unfold httpError. by destruct (errorHandler (this w)). Qed.

Lemma keeps_ok_clients_Load key : keeps_ok (clients_Load key).
Proof. by intros w Hw. Qed.

Lemma keeps_ok_clients_Delete key : keeps_ok (clients_Delete key).
Proof.
  intros w [Hnd Hok]. split; simpl.
  - by apply NoDup_keys_Delete.
  - apply Forall_forall. intros e He. apply elem_of_Delete in He as [He _].
    rewrite Forall_forall in Hok. by apply Hok.
Qed.

Lemma keeps_ok_removeClient id : keeps_ok (removeClient id).
Proof. apply keeps_ok_clients_Delete. Qed.

Lemma keeps_ok_hasClient id : keeps_ok (hasClient id).
Proof. by intros w Hw. Qed.

Lemma keeps_ok_Client_ID client : keeps_ok (Client_ID client).
Proof. apply keeps_ok_bind; [apply keeps_ok_deref | intros c; apply keeps_ok_ret]. Qed.

Lemma keeps_ok_Client_ShouldDisconnect client :
  keeps_ok (Client_ShouldDisconnect client).
Proof. apply keeps_ok_bind; [apply keeps_ok_deref | intros c; apply keeps_ok_ret]. Qed.

Lemma keeps_ok_Client_Write client data o : keeps_ok (Client_Write client data o).
Proof.
  intros w [Hnd Hok]. unfold Client_Write, bind, deref.
  destruct client as [p|]; [|done]. destruct (heap w !! p) as [c|] eqn:Hp; [|done].
  simpl. pose proof (Write_keeps_id c data o) as Hid.
  destruct (client.Write c data o) as [c' err]. simpl in *.
  split; [done|]. simpl. eapply Forall_impl; [exact Hok|].
  intros e. apply entry_ok_ids. by eapply ids_insert.
Qed.

Lemma Store_absent key v m : Load key m = None -> Store key v m = m ++ [(key, v)].
Proof. unfold Store. by intros ->. Qed.

Lemma keys_Store_present key v m :
  keys (List.map (fun e : string * value =>
                    if bool_decide (e.1 = key) then (key, v) else e) m) = keys m.
Proof.
  induction m as [|e m IH]; [done|]. simpl. rewrite IH. f_equal.
  by case_bool_decide.
Qed.

Lemma keeps_ok_addClient client : keeps_ok (addClient client).
Proof.
  intros w [Hnd Hok]. unfold addClient, Client_ID, clients_Store, bind, deref.
  destruct client as [p|]; [|done]. destruct (heap w !! p) as [c|] eqn:Hp; [|done].
  simpl. unfold Store. destruct (Load (client.ID c) (clients (this w))) as [v|] eqn:Hl.
  - split; simpl.
    + by rewrite keys_Store_present.
    + rewrite Forall_forall in Hok. apply Forall_forall. intros e He.
      apply list_elem_of_In, in_map_iff in He as (e0 & He0 & Hin).
      apply list_elem_of_In in Hin. destruct (bool_decide (e0.1 = client.ID c)); subst e.
      * apply entry_ok_inv. by exists p, c.
      * by apply Hok.
  - split; simpl.
    + unfold keys. rewrite map_app. simpl. apply NoDup_app. split; [done|].
      split; [|apply NoDup_singleton].
      intros x Hx Hx'. apply list_elem_of_singleton in Hx'. subst x.
      by apply Load_None in Hl.
    + apply Forall_app. split; [done|]. apply Forall_singleton.
      apply entry_ok_inv. by exists p, c.
Qed.

Lemma keeps_ok_BroadcastTo id data o : keeps_ok (BroadcastTo id data o).
Proof.
  unfold BroadcastTo. apply keeps_ok_bind; [apply keeps_ok_record|]. intros _.
  apply keeps_ok_bind; [apply keeps_ok_clients_Load|]. intros [[p|]|]; simpl.
  - apply keeps_ok_Client_Write.
  - apply keeps_ok_bind; [apply keeps_ok_removeClient | intros _; apply keeps_ok_ret].
  - apply keeps_ok_ret.
Qed.

Lemma keeps_ok_Broadcast_visit data sched key v acc :
  keeps_ok (Broadcast_visit data sched key v acc).
Proof.
  unfold Broadcast_visit. destruct acc as [out n].
  destruct (as_Client v) as [client ok].
  apply keeps_ok_bind.
  { destruct ok; simpl; [apply keeps_ok_ret|].
    apply keeps_ok_bind; [apply keeps_ok_clients_Delete | intros _; apply keeps_ok_ret]. }
  intros out'. apply keeps_ok_bind; [apply keeps_ok_Client_Write|]. intros [e|].
  - apply keeps_ok_bind; [apply keeps_ok_Client_ShouldDisconnect|]. intros sd.
    apply keeps_ok_bind; [|intros _; apply keeps_ok_ret].
    destruct sd; [|apply keeps_ok_ret].
    apply keeps_ok_bind; [apply keeps_ok_Client_ID | intros i; apply keeps_ok_removeClient].
  - apply keeps_ok_ret.
Qed.

Lemma keeps_ok_Range_from {S} (f : string -> value -> S -> M (bool * S)) snapshot :
  (forall key v acc, keeps_ok (f key v acc)) ->
  forall acc, keeps_ok (Range_from snapshot f acc).
Proof.
  intros Hf. induction snapshot as [|[key v0] rest IH]; intros acc; simpl.
  - apply keeps_ok_ret.
  - apply keeps_ok_bind; [apply keeps_ok_clients_Load|]. intros [v|]; [|apply IH].
    apply keeps_ok_bind; [apply Hf|]. intros [[|] acc']; [apply IH | apply keeps_ok_ret].
Qed.

Lemma keeps_ok_Broadcast data sched : keeps_ok (Broadcast data sched).
Proof.
  unfold Broadcast, Range. apply keeps_ok_bind; [apply keeps_ok_record|]. intros _.
  apply keeps_ok_bind.
  - apply keeps_ok_bind; [apply keeps_ok_get_clients|]. intros m.
    apply keeps_ok_Range_from. intros. apply keeps_ok_Broadcast_visit.
  - intros [out n]. destruct (0 <? length out)%nat; apply keeps_ok_ret.
Qed.

Lemma keeps_ok_EventHandler rw r sched : keeps_ok (EventHandler rw r sched).
Proof.
  unfold EventHandler. destruct (Body r) as [data [e|]]; [apply keeps_ok_httpError|].
  apply keeps_ok_bind.
  - destruct (negb _); [apply keeps_ok_BroadcastTo | apply keeps_ok_Broadcast].
  - intros [e|]; [apply keeps_ok_httpError | apply keeps_ok_ret].
Qed.

Lemma keeps_ok_Flush flusher rw : keeps_ok (Flush flusher rw).
Proof. destruct flusher; [apply keeps_ok_ret | apply keeps_ok_panic]. Qed.

Lemma keeps_ok_ClientHandler_select evs : forall h, keeps_ok (ClientHandler_select evs h).
Proof.
  induction evs as [|[| |] evs IH]; intros h; simpl.
  - apply keeps_ok_ret.
  - apply keeps_ok_bind.
    { apply keeps_ok_bind; [apply keeps_ok_deref | intros c; apply keeps_ok_ret]. }
    intros [data|]; [|apply IH].
    apply keeps_ok_bind; [apply keeps_ok_Flush|]. intros rw.
    apply keeps_ok_bind; [apply keeps_ok_hasClient|]. intros [|]; [apply IH | apply keeps_ok_ret].
  - apply keeps_ok_bind; [apply keeps_ok_hasClient|]. intros [|]; [apply IH | apply keeps_ok_ret].
  - apply keeps_ok_bind; [apply keeps_ok_removeClient | intros _; apply IH].
Qed.

Lemma keeps_ok_ClientHandler_loop evs h : keeps_ok (ClientHandler_loop evs h).
Proof.
  apply keeps_ok_bind; [apply keeps_ok_hasClient|].
  intros [|]; [apply keeps_ok_ClientHandler_select | apply keeps_ok_ret].
Qed.

Lemma keeps_ok_deferred d body :
  keeps_ok d -> keeps_ok body -> keeps_ok (deferred d body).
Proof.
  intros Hd Hb w Hw. unfold deferred. specialize (Hb w Hw).
  destruct (body w) as [[rw|h] w'|msg w']; simpl in *.
  - specialize (Hd w' Hb). by destruct (d w').
  - done.
  - by apply Hd.
Qed.

Lemma keeps_ok_client_New id xid : keeps_ok (client_New id xid).
Proof.
  intros w Hw. unfold client_New.
  exact (keeps_ok_alloc (client.New (timeout (this w)) (tolerance (this w)) id xid) w Hw).
Qed.

Lemma keeps_ok_ClientHandler rw r xid evs : keeps_ok (ClientHandler rw r xid evs).
Proof.
  unfold ClientHandler. destruct (as_Flusher rw) as [flusher ok0].
  destruct (as_CloseNotifier rw) as [notify ok]. destruct ok; simpl.
  - apply keeps_ok_bind; [apply keeps_ok_client_New|]. intros client.
    apply keeps_ok_bind; [apply keeps_ok_Client_ID|]. intros id.
    apply keeps_ok_bind; [apply keeps_ok_hasClient|]. intros [|].
    + apply keeps_ok_bind; [apply keeps_ok_httpError | intros ?; apply keeps_ok_ret].
    + apply keeps_ok_deferred; [apply keeps_ok_removeClient|].
      apply keeps_ok_bind; [apply keeps_ok_addClient|]. intros _.
      apply keeps_ok_ClientHandler_loop.
  - apply keeps_ok_bind; [apply keeps_ok_httpError | intros ?; apply keeps_ok_ret].
Qed.

Lemma keeps_ok_ClientHandler_resume evs h : keeps_ok (ClientHandler_resume evs h).
Proof.
  apply keeps_ok_deferred; [apply keeps_ok_removeClient | apply keeps_ok_ClientHandler_select].
Qed.

Lemma step_keeps_ok w w' : step w w' -> registry_ok w -> registry_ok w'.
Proof.
  intros Hstep Hw. destruct Hstep.
  - by apply keeps_ok_Broadcast.
  - by apply keeps_ok_BroadcastTo.
  - by apply keeps_ok_EventHandler.
  - by apply keeps_ok_ClientHandler.
  - by apply keeps_ok_ClientHandler_resume.
  - by apply keeps_ok_removeClient.
Qed.

Lemma reachable_registry_ok w : reachable w -> registry_ok w.
Proof.
  induction 1 as [t tol eh | w w' _ IH Hstep].
  - split; simpl; [apply NoDup_nil_2 | apply Forall_nil_2].
  - by eapply step_keeps_ok.
Qed.

(** ** [Broadcast] *)

(** C1. In every state of the registry in which each entry holds a
    connection stored under its own ID (every reachable state is one, see
    [reachable_registry_ok]), [Broadcast] returns, and it has
    called [Write] once on every registered connection, in the order of the
    iteration and whatever the earlier calls returned: each connection is
    left as its own [Write] leaves it.  The error is nil when no [Write]
    failed; otherwise its message is the messages of the failed calls, in
    that order, joined by newlines. *)
Theorem Broadcast_attempts_every_connection (w : world) (data : payload)
    (sched : nat -> client.select_outcome) :
  registry_ok w ->
  let cs := registered w in
  let results := write_results data sched 0 cs in
  snapshot_of cs = clients (this w) /\
  exists w',
    Broadcast data sched w = Ok (aggregate (failure_messages results)) w' /\
    history w' = history w ++ CallBroadcast data :: write_calls data sched 0 cs /\
    (forall i k p c,
        cs !! i = Some (k, p, c) ->
        heap w !! p = Some c /\
        heap w' !! p = Some (client.Write c data (sched i)).1).
Proof.
  intros Hok cs results. subst cs results. split; [by apply registered_snapshot|].
  destruct (Broadcast_sweep w data sched Hok) as (w' & Hrun & Hheap & Hhist & _).
  exists w'. split; [done|]. split; [done|].
  intros i k p c Hi.
  destruct (registered_elem w k p c Hok) as (_ & Hp & _);
    [by eapply list_elem_of_lookup_2|].
  split; [done|]. rewrite Hheap.
  rewrite (written_lookup data sched (registered w) 0 (heap w) i k p c); [done| | |done].
  - intros i' j' x y Hx Hy Hxy. by eapply registered_pointers_distinct.
  - intros k' p' c' Hin. destruct (registered_elem w k' p' c' Hok) as (_ & Hp' & _); [done|].
    by eapply lookup_lt_Some.
Qed.

Lemma Broadcast_attempts_every_connection_witness :
  exists w',
    Broadcast examples.hello examples.all_time_out examples.two_clients
    = Ok (Some ("failed to write to client 1234, timeout exceeded" +:+ newline +:+
                "failed to write to client 5678, timeout exceeded")) w' /\
    history w'
    = [CallBroadcast examples.hello;
       CallWrite 0 examples.hello client.TimedOut;
       CallWrite 1 examples.hello client.TimedOut].
Proof.
  assert (Hok : registry_ok examples.two_clients).
  { apply (bool_decide_unpack _). vm_compute. exact I. }
  destruct (Broadcast_attempts_every_connection examples.two_clients examples.hello
              examples.all_time_out Hok) as (_ & w' & Hrun & Hhist & _).
  exists w'. split; [exact Hrun | exact Hhist].
Defined.

(** ** [ClientHandler] *)

(** A response writer without close notification is turned down before
    anything is created: the error goes to the error path and the state is
    as it was. *)
Lemma ClientHandler_no_close_notifier rw r xid evs w :
  isCloseNotifier rw = false ->
  exists rw',
    ClientHandler rw r xid evs w = Ok (Returned rw') w /\
    httpError rw r "client does not support streaming" StatusInternalServerError w
    = Ok rw' w.
Proof.
  intros Hcn. unfold ClientHandler, as_Flusher, as_CloseNotifier. rewrite Hcn.
  cbn [negb]. unfold bind, httpError, ret.
  destruct (errorHandler (this w)); eexists; done.
Qed.

(** C3.  The second type assertion overwrites the [ok] of the first, so only
    the close notifier is checked.  A response writer that can notify of a
    close and cannot flush is accepted by a new broker: no error is reported,
    a client is created and registered, and the handler waits in its loop
    with a nil flusher.  When a broadcast then hands a payload to it, the
    handler writes the frame and panics in the call of [Flush]. *)
Theorem ClientHandler_accepts_writer_without_flusher
    (t tol : Z) (eh : option ErrorHandler) (hdr : list (string * string))
    (sent : list wire_op) (r : Request) (xid : string) (data : payload) :
  let rw := mkWriter false true hdr sent in
  let c := client.New t tol (Get (Query r) "id") xid in
  let h := mkHandler (event_stream rw) false (Some O) (client.ID c) O in
  let w' := mkWorld (mkBroker t [(client.ID c, VClient O)] eh tol) [c] [] in
  ClientHandler rw r xid [] (start (New t tol eh)) = Ok (Waiting h) w' /\
  ClientHandler_resume [Received] h (final (Broadcast data (fun _ => client.Sent) w'))
  = Panic nil_dereference
      (mkWorld (mkBroker t [] eh tol) [(client.Write c data client.Sent).1]
         [CallBroadcast data; CallWrite O data client.Sent]).
Proof.
  intros rw c h w'. subst rw h w'. split.
  - unfold ClientHandler. simpl.
    unfold deferred, bind, client_New, alloc, Client_ID, bind, deref, hasClient, bind,
      clients_Load, bind, get_clients, ret, start, New. simpl.
    unfold addClient, Client_ID, ClientHandler_loop, hasClient, clients_Store, bind, deref,
      clients_Load, bind, get_clients, set_clients, ret. simpl.
    unfold Store, Load. simpl.
    rewrite (bool_decide_true (client.ID _ = client.ID _)) by done. done.
  - unfold Broadcast, Range, bind, record, get_clients. simpl.
    unfold clients_Load, bind, get_clients, ret. simpl.
    unfold Load. simpl. rewrite (bool_decide_true (client.ID _ = client.ID _)) by done.
    simpl. unfold Client_Write, bind, deref, record, assign, ret. simpl.
    unfold ClientHandler_resume, deferred. simpl.
    unfold Client_Listen, bind, deref, ret. simpl.
    unfold removeClient, clients_Delete, bind, get_clients, set_clients. simpl.
    assert (Hn : client.notify c = []) by apply New_notify.
    unfold Delete. rewrite Hn. simpl.
    rewrite (bool_decide_true (client.ID _ = client.ID _)) by done. done.
Qed.

(** ** [BroadcastTo] *)

(** C6.  For an identifier that is not in the registry, [BroadcastTo] returns
    the unknown-client error and neither the registry nor any client object
    changes.  For an identifier that maps to a client, it returns what
    [Write] returns on that client, the client is left as [Write] leaves it
    and the registry is as before: the client stays registered under its
    identifier, also when the failed write has brought it to its
    tolerance. *)
Theorem BroadcastTo_unknown_or_verbatim (w : world) (id : string) (data : payload)
    (o : client.select_outcome) :
  (Load id (clients (this w)) = None ->
   exists w',
     BroadcastTo id data o w
     = Ok (Some ("no client with id " +:+ id +:+ " exists")) w' /\
     clients (this w') = clients (this w) /\
     heap w' = heap w) /\
  (forall p c,
     Load id (clients (this w)) = Some (VClient p) ->
     heap w !! p = Some c ->
     exists w',
       BroadcastTo id data o w = Ok (client.Write c data o).2 w' /\
       clients (this w') = clients (this w) /\
       Load id (clients (this w')) = Some (VClient p) /\
       heap w' = <[p := (client.Write c data o).1]> (heap w)).
Proof.
  split.
  - intros Hl. unfold BroadcastTo. run. rewrite Hl. eexists. by repeat split.
  - intros p c Hl Hp. unfold BroadcastTo, Client_Write. run. rewrite Hl. simpl.
    rewrite Hp. simpl. destruct (client.Write c data o) as [c' err]. simpl.
    eexists. by repeat split.
Qed.

Lemma BroadcastTo_unknown_or_verbatim_witness :
  (exists w',
     BroadcastTo "9999" examples.hello client.TimedOut examples.strict
     = Ok (Some "no client with id 9999 exists") w' /\
     clients (this w') = clients (this examples.strict)) /\
  (exists w',
     BroadcastTo "1234" examples.hello client.TimedOut examples.strict
     = Ok (Some "failed to write to client 1234, timeout exceeded") w' /\
     Load "1234" (clients (this w')) = Some (VClient 0) /\
     (client.ShouldDisconnect <$> heap w' !! 0%nat) = Some true).
Proof.
  split.
  - destruct (BroadcastTo_unknown_or_verbatim examples.strict "9999" examples.hello
                client.TimedOut) as [H _].
    destruct (H eq_refl) as (w' & Hrun & Hcl & _). exists w'. split; [exact Hrun | exact Hcl].
  - destruct (BroadcastTo_unknown_or_verbatim examples.strict "1234" examples.hello
                client.TimedOut) as [_ H].
    destruct (H 0%nat (client.New 1000000000 1 "1234" "") eq_refl eq_refl)
      as (w' & Hrun & _ & Hl & Hheap).
    exists w'. split; [exact Hrun|]. split; [exact Hl|]. rewrite Hheap. reflexivity.
Defined.

(** ** [ClientHandler], duplicates *)

Lemma Load_Store_eq key v m : Load key (Store key v m) = Some v.
Proof.
  unfold Store. destruct (Load key m) as [v0|] eqn:Hl.
  - induction m as [|e m IH]; [done|]. rewrite Load_cons in Hl.
    cbn [List.map]. destruct (bool_decide (e.1 = key)) eqn:He.
    + rewrite Load_cons. cbn [fst snd]. by rewrite bool_decide_true.
    + rewrite Load_cons, He. auto.
  - induction m as [|e m IH]; simpl.
    + rewrite Load_cons. cbn [fst snd]. by rewrite bool_decide_true.
    + rewrite Load_cons in Hl |- *. destruct (bool_decide (e.1 = key)); [done|auto].
Qed.

(** C7.  The keys of a reachable registry are pairwise distinct.  When the
    handler is called by a client that can be notified of a close and whose
    identifier (the one asked for, or the generated one) is already in the
    registry, it returns at once: the duplicate error goes to the error
    path, the registry is the one from before, and every client object that
    existed is untouched, so the first connection is still found under its
    identifier. *)
Theorem ClientHandler_rejects_duplicate (w : world) (rw : ResponseWriter) (r : Request)
    (xid : string) (evs : list loop_event) :
  let c := client.New (timeout (this w)) (tolerance (this w)) (Get (Query r) "id") xid in
  let id := client.ID c in
  (reachable w -> NoDup (keys (clients (this w)))) /\
  (isCloseNotifier rw = true ->
   is_Some (Load id (clients (this w))) ->
   exists rw' w',
     ClientHandler rw r xid evs w = Ok (Returned rw') w' /\
     httpError (event_stream rw) r ("a client with id " +:+ id +:+ " already exists")
       StatusInternalServerError w' = Ok rw' w' /\
     clients (this w') = clients (this w) /\
     Load id (clients (this w')) = Load id (clients (this w)) /\
     heap w' = heap w ++ [c] /\
     history w' = history w).
Proof.
  intros c id. split.
  - intros Hw. by apply reachable_registry_ok.
  - intros Hcn Hdup. unfold ClientHandler, as_Flusher, as_CloseNotifier. rewrite Hcn.
    cbn [negb]. unfold client_New, alloc. unfold bind at 1. fold c.
    unfold bind at 1, Client_ID, bind at 1, deref. cbn [heap].
    rewrite lookup_app_r by done. rewrite Nat.sub_diag. cbn [lookup list_lookup].
    unfold ret at 1. fold id. unfold bind at 1, hasClient, bind at 1, clients_Load,
      bind at 1, get_clients, ret. cbn [this clients].
    rewrite bool_decide_true by done.
    unfold bind, httpError. cbn [this errorHandler].
    destruct (errorHandler (this w)) eqn:Heh; eexists _, _;
      (split; [reflexivity|]); cbn [this]; rewrite Heh; repeat split; done.
Qed.

Lemma ClientHandler_rejects_duplicate_witness :
  NoDup (keys (clients (this examples.one_client))) /\
  exists rw' w',
    ClientHandler examples.recorder (examples.connect "1234") "" [] examples.one_client
    = Ok (Returned rw') w' /\
    clients (this w') = [("1234", VClient 0)].
Proof.
  destruct (ClientHandler_rejects_duplicate examples.one_client examples.recorder
              (examples.connect "1234") "" []) as [Hnd Hdup].
  split.
  - apply Hnd. unfold examples.one_client.
    eapply reachable_step; [apply reachable_New | apply step_ClientHandler].
  - destruct Hdup as (rw' & w' & Hrun & _ & Hcl & _).
    + reflexivity.
    + vm_compute. eexists. reflexivity.
    + exists rw', w'. split; [exact Hrun | exact Hcl].
Defined.

(** ** [ClientHandler], the loop *)

Lemma frames_cons data ps : frames (data :: ps) = OpWrite (frame data) :: OpFlush :: frames ps.
Proof. reflexivity. Qed.

Lemma ClientHandler_select_frames evs : forall h w p c,
  h_flusher h = true ->
  h_client h = Some p ->
  heap w !! p = Some c ->
  let pending := drop (h_taken h) (client.Listen c) in
  exists st w',
    ClientHandler_select evs h w = Ok st w' /\
    wire (writer_of st)
    = wire (h_w h)
      ++ frames (take (taken (bool_decide (is_Some (Load (h_id h) (clients (this w)))))
                         (length pending) evs) pending).
Proof.
  induction evs as [|[| |] evs IH]; intros h w p c Hfl Hcl Hp pending; subst pending.
  - exists (Waiting h), w. split; [done|]. simpl. by rewrite app_nil_r.
  - cbn [ClientHandler_select]. unfold Client_Listen.
    unfold bind at 1. unfold bind at 1, deref. rewrite Hcl, Hp. unfold ret at 1.
    destruct (client.Listen c !! h_taken h) as [data|] eqn:Hq.
    + rewrite (drop_S _ _ _ Hq). cbn [length taken].
      rewrite Hfl. unfold Flush. unfold bind at 1, ret at 1.
      cbn [h_id h_w h_flusher h_client h_taken].
      unfold bind at 1, hasClient, bind at 1, clients_Load, bind at 1, get_clients, ret at 1.
      unfold ret at 1.
      destruct (bool_decide (is_Some (Load (h_id h) (clients (this w))))) eqn:Hreg.
      * destruct (IH (mkHandler (call OpFlush (Fprintf_data (h_w h) data)) true
                        (Some p) (h_id h) (S (h_taken h))) w p c eq_refl eq_refl Hp)
          as (st & w' & Hrun & Hwire).
        exists st, w'. split; [exact Hrun|]. rewrite Hwire.
        cbn [h_w h_id h_taken]. rewrite Hreg. cbn [take]. rewrite frames_cons.
        simpl. by rewrite <- !app_assoc.
      * eexists _, _. split; [reflexivity|]. simpl. rewrite ?take_0.
        simpl. by rewrite <- !app_assoc.
    + apply lookup_ge_None in Hq. rewrite (drop_ge _ _ Hq). cbn [length taken].
      destruct (IH h w p c Hfl Hcl Hp) as (st & w' & Hrun & Hwire).
      exists st, w'. split; [exact Hrun|]. rewrite Hwire.
      rewrite (drop_ge _ _ Hq). by rewrite !take_nil.
  - cbn [ClientHandler_select taken].
    unfold bind at 1, hasClient, bind at 1, clients_Load, bind at 1, get_clients, ret at 1.
    unfold ret at 1.
    destruct (bool_decide (is_Some (Load (h_id h) (clients (this w))))) eqn:Hreg.
    + destruct (IH h w p c Hfl Hcl Hp) as (st & w' & Hrun & Hwire).
      exists st, w'. split; [exact Hrun|]. by rewrite Hwire, Hreg.
    + eexists _, _. split; [reflexivity|]. simpl. rewrite ?take_0. simpl.
      by rewrite app_nil_r.
  - cbn [ClientHandler_select taken]. unfold bind at 1, listenForClose, removeClient,
      clients_Delete, bind at 1, get_clients, set_clients.
    match goal with |- context [ClientHandler_select evs h ?w1] =>
      destruct (IH h w1 p c Hfl Hcl Hp) as (st & w' & Hrun & Hwire) end.
    exists st, w'. split; [exact Hrun|]. rewrite Hwire. cbn [this clients].
    rewrite Load_Delete_eq. rewrite (bool_decide_false (is_Some None)); [done|].
    by intros [? ?].
Qed.

(** C8.  A handler with a flusher takes the payloads handed to the queue of
    its connection in order, each once, and for every payload it takes it
    writes the bytes of [data: ], the payload and two newlines in one write
    and flushes right after it; nothing else goes on the wire.  This holds
    for the loop from its head and for a handler that goes on from inside
    its [select]. *)
Theorem ClientHandler_one_frame_per_payload (evs : list loop_event) (h : handler)
    (w : world) (p : nat) (c : client.Client) :
  h_flusher h = true ->
  h_client h = Some p ->
  heap w !! p = Some c ->
  let registered := bool_decide (is_Some (Load (h_id h) (clients (this w)))) in
  let pending := drop (h_taken h) (client.Listen c) in
  let on_wire (ps : list payload) :=
    flat_map (fun data =>
                [OpWrite (list_byte_of_string "data: " ++ data ++ [x0a; x0a]%byte);
                 OpFlush]) ps in
  (exists st w',
     ClientHandler_loop evs h w = Ok st w' /\
     wire (writer_of st)
     = wire (h_w h)
       ++ on_wire (take (if registered then taken true (length pending) evs else O)
                     pending)) /\
  (exists st w',
     ClientHandler_select evs h w = Ok st w' /\
     wire (writer_of st)
     = wire (h_w h) ++ on_wire (take (taken registered (length pending) evs) pending)).
Proof.
  intros Hfl Hcl Hp registered pending on_wire. subst registered pending on_wire. split.
  - unfold ClientHandler_loop.
    unfold bind at 1, hasClient, bind at 1, clients_Load, bind at 1, get_clients, ret at 1.
    unfold ret at 1.
    destruct (bool_decide (is_Some (Load (h_id h) (clients (this w))))) eqn:Hreg.
    + destruct (ClientHandler_select_frames evs h w p c Hfl Hcl Hp)
        as (st & w' & Hrun & Hwire).
      exists st, w'. split; [exact Hrun|]. rewrite Hwire, Hreg. done.
    + eexists _, _. split; [reflexivity|]. simpl. rewrite ?take_0. simpl.
      by rewrite app_nil_r.
  - exact (ClientHandler_select_frames evs h w p c Hfl Hcl Hp).
Qed.

Lemma ClientHandler_one_frame_per_payload_witness :
  exists st w',
    ClientHandler_select [Received; Ticked; Received] examples.handler_1234
      examples.delivered = Ok st w' /\
    wire (writer_of st)
    = [OpWrite (list_byte_of_string "data: hello world" ++ [x0a; x0a]%byte); OpFlush].
Proof.
  destruct (ClientHandler_one_frame_per_payload [Received; Ticked; Received]
              examples.handler_1234 examples.delivered 0%nat
              (client.Write (client.New 1000000000 3 "1234" "") examples.hello
                 client.Sent).1 eq_refl eq_refl eq_refl)
    as [_ (st & w' & Hrun & Hwire)].
  exists st, w'. split; [exact Hrun | exact Hwire].
Defined.

(** ** [EventHandler] *)

Lemma logs_writes_silent {A} (m : M A) :
  (forall w, history (final (m w)) = history w) -> logs_writes m.
Proof. intros H w. exists []. split; [by rewrite app_nil_r | done]. Qed.

Lemma logs_writes_bind {A B} (m : M A) (k : A -> M B) :
  logs_writes m -> (forall a, logs_writes (k a)) -> logs_writes (bind m k).
Proof.
  intros Hm Hk w. unfold bind. destruct (Hm w) as (evs & Hh & Hevs).
  destruct (m w) as [a w'|msg w']; simpl in *.
  - destruct (Hk a w') as (evs' & Hh' & Hevs'). exists (evs ++ evs').
    split; [by rewrite Hh', Hh, app_assoc | by apply Forall_app].
  - by exists evs.
Qed.

Lemma logs_writes_ret {A} (a : A) : logs_writes (ret a).
Proof. by apply logs_writes_silent. Qed.

Lemma logs_writes_clients_Delete key : logs_writes (clients_Delete key).
Proof. by apply logs_writes_silent. Qed.

Lemma logs_writes_clients_Load key : logs_writes (clients_Load key).
Proof. by apply logs_writes_silent. Qed.

Lemma logs_writes_deref client : logs_writes (deref client).
Proof.
  apply logs_writes_silent. intros w. unfold deref.
  destruct client as [p|]; [|done]. by destruct (heap w !! p).
Qed.

Lemma logs_writes_Client_Write client data o : logs_writes (Client_Write client data o).
Proof.
  intros w. unfold Client_Write, bind, deref.
  destruct client as [p|]; [|by exists []; rewrite app_nil_r].
  destruct (heap w !! p) as [c|]; [|by exists []; rewrite app_nil_r].
  simpl. destruct (client.Write c data o) as [c' err]. simpl.
  exists [CallWrite p data o]. split; [done|]. by apply Forall_singleton.
Qed.

Lemma logs_writes_Broadcast_visit data sched key v acc :
  logs_writes (Broadcast_visit data sched key v acc).
Proof.
  unfold Broadcast_visit. destruct acc as [out n].
  destruct (as_Client v) as [client ok].
  apply logs_writes_bind.
  { destruct ok; simpl; [apply logs_writes_ret|].
    apply logs_writes_bind; [apply logs_writes_clients_Delete | intros _; apply logs_writes_ret]. }
  intros out'. apply logs_writes_bind; [apply logs_writes_Client_Write|]. intros [e|].
  - apply logs_writes_bind.
    { apply logs_writes_bind; [apply logs_writes_deref | intros c; apply logs_writes_ret]. }
    intros sd. apply logs_writes_bind; [|intros _; apply logs_writes_ret].
    destruct sd; [|apply logs_writes_ret].
    apply logs_writes_bind; [|intros i; apply logs_writes_clients_Delete].
    apply logs_writes_bind; [apply logs_writes_deref | intros c; apply logs_writes_ret].
  - apply logs_writes_ret.
Qed.

Lemma logs_writes_Range_from {S} (f : string -> value -> S -> M (bool * S)) snapshot :
  (forall key v acc, logs_writes (f key v acc)) ->
  forall acc, logs_writes (Range_from snapshot f acc).
Proof.
  intros Hf. induction snapshot as [|[key v0] rest IH]; intros acc; simpl.
  - apply logs_writes_ret.
  - apply logs_writes_bind; [apply logs_writes_clients_Load|]. intros [v|]; [|apply IH].
    apply logs_writes_bind; [apply Hf|]. intros [[|] acc']; [apply IH | apply logs_writes_ret].
Qed.

(** In any state, also in one where it panics, [Broadcast] records its own
    call and then calls of [Write] only. *)
Lemma Broadcast_history data sched w :
  exists writes,
    history (final (Broadcast data sched w))
    = history w ++ CallBroadcast data :: writes /\
    Forall is_CallWrite writes.
Proof.
  unfold Broadcast. unfold bind at 1, record.
  match goal with |- context [bind ?m ?k ?w0] =>
    assert (Hlw : logs_writes (bind m k)); [|destruct (Hlw w0) as (evs & Hh & Hevs)] end.
  { apply logs_writes_bind.
    - unfold Range. apply logs_writes_bind; [by apply logs_writes_silent|]. intros m.
      apply logs_writes_Range_from. intros. apply logs_writes_Broadcast_visit.
    - intros [out n]. destruct (0 <? length out)%nat; apply logs_writes_ret. }
  exists evs. split; [|done]. rewrite Hh. simpl. by rewrite <- app_assoc.
Qed.

Lemma httpError_history rw r e code w :
  exists rw', httpError rw r e code w = Ok rw' w.
Proof. unfold httpError. destruct (errorHandler (this w)); by eexists. Qed.

Lemma respond_history rw r err w : final (respond rw r err w) = w.
Proof.
  destruct err as [e|]; simpl; [|done].
  by destruct (httpError_history rw r e StatusInternalServerError w) as [rw' ->].
Qed.

Lemma Get_absent (v : list (string * list string)) key :
  key ∉ List.map fst v -> Get v key = "".
Proof.
  intros Hk. unfold Get. induction v as [|e v IH]; [done|]. simpl in *.
  apply not_elem_of_cons in Hk as [Hne Hk].
  rewrite bool_decide_false by congruence. auto.
Qed.

Lemma Get_first (v v' : list (string * list string)) key x xs :
  key ∉ List.map fst v -> Get (v ++ (key, x :: xs) :: v') key = x.
Proof.
  intros Hk. unfold Get. induction v as [|e v IH]; simpl in *.
  - by rewrite bool_decide_true.
  - apply not_elem_of_cons in Hk as [Hne Hk].
    rewrite bool_decide_false by congruence. auto.
Qed.

(** C9.  [Get] gives the empty string when the query has no [id] and when
    the first [id] it has is empty.  With the body read, a request whose
    [id] is the empty string is handed to [Broadcast]: the handler is
    [Broadcast] followed by the response, its history shows the call of
    [Broadcast] and, after it, calls of [Write] only, so no call of
    [BroadcastTo].  Only an [id] that is not empty goes to [BroadcastTo].
    When the body cannot be read, the handler reports that and calls
    neither. *)
Theorem EventHandler_empty_id_broadcasts (rw : ResponseWriter) (r : Request)
    (sched : nat -> client.select_outcome) (w : world) (data : payload) :
  (forall v, "id" ∉ List.map fst v -> Get v "id" = "") /\
  (forall v v' vals, "id" ∉ List.map fst v -> Get (v ++ ("id", "" :: vals) :: v') "id" = "") /\
  (Body r = (data, None) ->
   Get (Query r) "id" = "" ->
   EventHandler rw r sched w = bind (Broadcast data sched) (respond rw r) w /\
   exists writes,
     history (final (EventHandler rw r sched w))
     = history w ++ CallBroadcast data :: writes /\
     Forall is_CallWrite writes) /\
  (Body r = (data, None) ->
   Get (Query r) "id" <> "" ->
   EventHandler rw r sched w
   = bind (BroadcastTo (Get (Query r) "id") data (sched O)) (respond rw r) w) /\
  (forall e,
     Body r = (data, Some e) ->
     EventHandler rw r sched w = httpError rw r e StatusInternalServerError w).
Proof.
  split; [|split; [|split; [|split]]].
  - intros v Hv. by apply Get_absent.
  - intros v v' vals Hv. by apply Get_first.
  - intros Hbody Hid.
    assert (Heq : EventHandler rw r sched w = bind (Broadcast data sched) (respond rw r) w).
    { unfold EventHandler. rewrite Hbody, Hid. done. }
    split; [exact Heq|]. rewrite Heq. unfold bind.
    destruct (Broadcast_history data sched w) as (writes & Hh & Hwr).
    exists writes. split; [|done].
    destruct (Broadcast data sched w) as [err w'|msg w']; simpl in *; [|done].
    by rewrite respond_history.
  - intros Hbody Hid. unfold EventHandler. rewrite Hbody.
    rewrite bool_decide_false by done. done.
  - intros e Hbody. unfold EventHandler. by rewrite Hbody.
Qed.

Lemma EventHandler_empty_id_broadcasts_witness :
  history
    (final (EventHandler examples.recorder (mkRequest [("id", [""])] (examples.hello, None))
              examples.all_time_out examples.two_clients))
  = [CallBroadcast examples.hello;
     CallWrite 0 examples.hello client.TimedOut;
     CallWrite 1 examples.hello client.TimedOut].
Proof.
  destruct (EventHandler_empty_id_broadcasts examples.recorder
              (mkRequest [("id", [""])] (examples.hello, None))
              examples.all_time_out examples.two_clients examples.hello)
    as (_ & _ & H & _ & _).
  destruct (H eq_refl eq_refl) as [Heq _]. rewrite Heq. reflexivity.
Defined.

(** ** Keys and identifiers *)

(** A key is evicted by a sweep exactly when the [Write] on the connection
    stored under it failed and left that connection at its tolerance. *)
Lemma elem_of_evicted data sched cs : forall n key,
  key ∈ evicted data sched n cs <->
  exists i p c,
    cs !! i = Some (key, p, c) /\
    sched (n + i)%nat = client.TimedOut /\
    client.ShouldDisconnect (client.Write c data client.TimedOut).1 = true.
Proof.
  induction cs as [|[[k p] c] cs IH]; intros n key.
  - split; [intros H; by apply elem_of_nil in H | by intros (i & ? & ? & ? & _)].
  - rewrite evicted_cons, elem_of_app, IH. split.
    + intros [Hin | (i & p' & c' & Hi & Ho & Hsd)].
      * exists 0%nat, p, c. rewrite Nat.add_0_r. simpl in Hin.
        destruct (sched n) eqn:Ho; simpl in Hin; [by apply elem_of_nil in Hin|].
        destruct (client.ShouldDisconnect _) eqn:Hsd; [|by apply elem_of_nil in Hin].
        apply list_elem_of_singleton in Hin. by subst.
      * exists (S i), p', c'. split; [done|]. split; [|done].
        by replace (n + S i)%nat with (S n + i)%nat by lia.
    + intros ([|i] & p' & c' & Hi & Ho & Hsd).
      * left. simpl in Hi. simplify_eq. rewrite Nat.add_0_r in Ho.
        simpl. rewrite Ho. simpl in *. rewrite Hsd. left.
      * right. exists i, p', c'. split; [done|]. split; [|done].
        by replace (S n + i)%nat with (n + S i)%nat by lia.
Qed.

Lemma elem_of_remove_keys e ks m : e ∈ remove_keys ks m <-> e ∈ m /\ e.1 ∉ ks.
Proof.
  unfold remove_keys. split.
  - intros H. apply list_elem_of_In, filter_In in H as [H1 H2].
    apply negb_true_iff, bool_decide_eq_false in H2.
    split; [by apply list_elem_of_In | done].
  - intros [H1 H2]. apply list_elem_of_In, filter_In.
    split; [by apply list_elem_of_In|]. by apply negb_true_iff, bool_decide_eq_false.
Qed.

(** C10.  In every reachable state each entry of the registry holds a
    client whose ID is the key of the entry; [addClient] stores a client
    under its own ID; and [Broadcast], which evicts by the ID of the client
    it has just written to, removes exactly the entries whose own [Write]
    timed out and left them at their tolerance. *)
Theorem registry_keys_are_connection_ids (w : world) :
  reachable w ->
  (forall key v,
     (key, v) ∈ clients (this w) ->
     exists p c, v = VClient p /\ heap w !! p = Some c /\ client.ID c = key) /\
  (forall p c,
     heap w !! p = Some c ->
     exists w',
       addClient (Some p) w = Ok tt w' /\
       Load (client.ID c) (clients (this w')) = Some (VClient p)) /\
  (forall data sched,
     exists err w',
       Broadcast data sched w = Ok err w' /\
       forall e,
         e ∈ clients (this w') <->
         e ∈ clients (this w) /\
         ~ exists i p c,
             registered w !! i = Some (e.1, p, c) /\
             sched i = client.TimedOut /\
             client.ShouldDisconnect (client.Write c data client.TimedOut).1 = true).
Proof.
  intros Hreach. pose proof (reachable_registry_ok w Hreach) as Hok.
  split; [|split].
  - intros key v Hin. destruct Hok as [_ Hok]. rewrite Forall_forall in Hok.
    apply Hok, entry_ok_inv in Hin. exact Hin.
  - intros p c Hp. unfold addClient, Client_ID, clients_Store. run. rewrite Hp. simpl.
    eexists. split; [done|]. simpl. apply Load_Store_eq.
  - intros data sched.
    destruct (Broadcast_sweep w data sched Hok) as (w' & Hrun & _ & _ & Hcl & _).
    eexists _, w'. split; [exact Hrun|]. intros e.
    rewrite Hcl, elem_of_remove_keys, elem_of_evicted. reflexivity.
Qed.

Lemma registry_keys_are_connection_ids_witness :
  exists p c,
    heap examples.two_clients !! p = Some c /\ client.ID c = "5678".
Proof.
  assert (Hreach : reachable examples.two_clients).
  { unfold examples.two_clients, examples.one_client.
    eapply reachable_step; [|apply step_ClientHandler].
    eapply reachable_step; [apply reachable_New | apply step_ClientHandler]. }
  destruct (registry_keys_are_connection_ids examples.two_clients Hreach) as (H & _ & _).
  destruct (H "5678" (VClient 1)) as (p & c & _ & Hp & Hid).
  - vm_compute. right. left.
  - exists p, c. split; [exact Hp | exact Hid].
Defined.

(** ** [Broadcast] and entries that are no clients *)








(** * Further properties *)

(** ** A client over several writes *)

(** X1.  Over any series of [Write] calls, the receiver of [Listen] sees
    exactly the payloads of the calls that succeeded, after what it had seen
    before and in the order of the calls; the payload of a call that timed
    out is never delivered later.  Identifier, timeout and tolerance stay as
    they are. *)
Theorem writes_deliver_in_order (c : client.Client)
    (ws : list (payload * client.select_outcome)) :
  client.Listen (writes c ws) = client.Listen c ++ handed_over ws /\
  client.ID (writes c ws) = client.ID c /\
  client.timeout (writes c ws) = client.timeout c /\
  client.tolerance (writes c ws) = client.tolerance c.
Proof.
  induction ws as [|[data o] ws IH] in c |- *.
  - simpl. by rewrite app_nil_r.
  - cbn [writes]. destruct (IH (client.Write c data o).1) as (Hl & Hid & Hto & Htol).
    rewrite Hl, Hid, Hto, Htol. destruct o; simpl.
    + unfold handed_over. simpl. by rewrite <- app_assoc.
    + done.
Qed.

Lemma writes_keep_tolerance (c : client.Client) ws :
  client.tolerance (writes c ws) = client.tolerance c.
Proof.
  induction ws as [|[data o] ws IH] in c |- *; [done|].
  cbn [writes]. rewrite IH. by destruct o.
Qed.

Lemma streak_bound n ws : (streak n ws <= n + length ws)%nat.
Proof.
  induction ws as [|[data o] ws IH] in n |- *; simpl; [lia|].
  destruct o.
  - specialize (IH O). lia.
  - specialize (IH (S n)). lia.
Qed.

(** X2.  After any series of [Write] calls the failure counter is the number
    of timeouts since the last success (counting on from the value before
    the series when there was no success), as long as that fits an [int];
    so [ShouldDisconnect] holds exactly when that number has reached the
    tolerance. *)
Theorem writes_count_streak (c : client.Client)
    (ws : list (payload * client.select_outcome)) :
  0 <= client.failures c ->
  client.failures c + Z.of_nat (length ws) <= goint.max_int ->
  client.failures (writes c ws)
  = Z.of_nat (streak (Z.to_nat (client.failures c)) ws) /\
  client.ShouldDisconnect (writes c ws)
  = bool_decide (client.tolerance c
                 <= Z.of_nat (streak (Z.to_nat (client.failures c)) ws)).
Proof.
  intros Hlo Hhi.
  assert (Hf : client.failures (writes c ws)
               = Z.of_nat (streak (Z.to_nat (client.failures c)) ws)).
  { induction ws as [|[data o] ws IH] in c, Hlo, Hhi |- *.
    - simpl. lia.
    - cbn [writes streak]. cbn [length] in Hhi. destruct o.
      + rewrite IH; simpl; [done | lia | unfold goint.max_int in *; lia].
      + assert (Hi : goint.incr (client.failures c) = client.failures c + 1).
        { apply incr_below_max. unfold goint.min_int. lia. }
        rewrite IH; simpl; rewrite Hi; [|lia|lia].
        by replace (Z.to_nat (client.failures c + 1))
          with (S (Z.to_nat (client.failures c))) by lia. }
  split; [exact Hf|]. unfold client.ShouldDisconnect. rewrite Hf.
  rewrite writes_keep_tolerance.
  case_bool_decide; lia.
Qed.

Lemma writes_count_streak_witness :
  client.ShouldDisconnect
    (writes (client.New 1000 2 "1234" "")
       [([x61]%byte, client.TimedOut); ([x62]%byte, client.Sent);
        ([x63]%byte, client.TimedOut)]) = false.
Proof.
  destruct (writes_count_streak (client.New 1000 2 "1234" "")
              [([x61]%byte, client.TimedOut); ([x62]%byte, client.Sent);
               ([x63]%byte, client.TimedOut)]) as [_ H].
  - vm_compute. discriminate.
  - vm_compute. discriminate.
  - rewrite H. reflexivity.
Defined.

(** ** Methods that add nothing *)

Lemma same_config_set_clients w m :
  same_config w (final (set_clients m w)).
Proof. by repeat split. Qed.

Lemma adds_nothing_ret {A} (a : A) : adds_nothing (ret a).
Proof. intros w. split; [done|]. split; [done | by repeat split]. Qed.

Lemma adds_nothing_panic {A} msg : adds_nothing (@panic A msg).
Proof. intros w. split; [done|]. split; [done | by repeat split]. Qed.

Lemma adds_nothing_bind {A B} (m : M A) (k : A -> M B) :
  adds_nothing m -> (forall a, adds_nothing (k a)) -> adds_nothing (bind m k).
Proof.
  intros Hm Hk w. unfold bind. destruct (Hm w) as (Hkeys & Hids & Hcfg).
  destruct (m w) as [a w'|msg w']; simpl in *; [|done].
  destruct (Hk a w') as (Hkeys' & Hids' & Hcfg').
  split; [by etrans|]. split; [congruence | by eapply same_config_trans].
Qed.

Lemma adds_nothing_record e : adds_nothing (record e).
Proof. intros w. split; [done|]. split; [done | by repeat split]. Qed.

Lemma adds_nothing_clients_Load key : adds_nothing (clients_Load key).
Proof. intros w. split; [done|]. split; [done | by repeat split]. Qed.

Lemma adds_nothing_clients_Delete key : adds_nothing (clients_Delete key).
Proof.
  intros w. split; [apply keys_Delete_subseteq|]. split; [done | by repeat split].
Qed.

Lemma adds_nothing_deref client : adds_nothing (deref client).
Proof.
  intros w. unfold deref. destruct client as [p|]; [destruct (heap w !! p)|];
    (split; [done|]; split; [done | by repeat split]).
Qed.

Lemma adds_nothing_Client_Write client data o :
  adds_nothing (Client_Write client data o).
Proof.
  intros w. unfold Client_Write, bind, deref.
  destruct client as [p|]; [|split; [done|]; split; [done | by repeat split]].
  destruct (heap w !! p) as [c|] eqn:Hp;
    [|split; [done|]; split; [done | by repeat split]].
  simpl. pose proof (Write_keeps_id c data o) as Hid.
  destruct (client.Write c data o) as [c' err]. simpl in *.
  split; [done|]. split; [by eapply ids_insert | by repeat split].
Qed.

Lemma adds_nothing_httpError rw r err code : adds_nothing (httpError rw r err code).
Proof.
  intros w. unfold httpError. destruct (errorHandler (this w));
    (split; [done|]; split; [done | by repeat split]).
Qed.

Lemma adds_nothing_BroadcastTo id data o : adds_nothing (BroadcastTo id data o).
Proof.
  unfold BroadcastTo. apply adds_nothing_bind; [apply adds_nothing_record|]. intros _.
  apply adds_nothing_bind; [apply adds_nothing_clients_Load|]. intros [[p|]|]; simpl.
  - apply adds_nothing_Client_Write.
  - apply adds_nothing_bind; [apply adds_nothing_clients_Delete | intros _; apply adds_nothing_ret].
  - apply adds_nothing_ret.
Qed.

Lemma adds_nothing_Broadcast_visit data sched key v acc :
  adds_nothing (Broadcast_visit data sched key v acc).
Proof.
  unfold Broadcast_visit. destruct acc as [out n].
  destruct (as_Client v) as [client ok].
  apply adds_nothing_bind.
  { destruct ok; simpl; [apply adds_nothing_ret|].
    apply adds_nothing_bind; [apply adds_nothing_clients_Delete | intros _; apply adds_nothing_ret]. }
  intros out'. apply adds_nothing_bind; [apply adds_nothing_Client_Write|]. intros [e|].
  - apply adds_nothing_bind.
    { apply adds_nothing_bind; [apply adds_nothing_deref | intros c; apply adds_nothing_ret]. }
    intros sd. apply adds_nothing_bind; [|intros _; apply adds_nothing_ret].
    destruct sd; [|apply adds_nothing_ret].
    apply adds_nothing_bind; [|intros i; apply adds_nothing_clients_Delete].
    apply adds_nothing_bind; [apply adds_nothing_deref | intros c; apply adds_nothing_ret].
  - apply adds_nothing_ret.
Qed.

Lemma adds_nothing_Range_from {S} (f : string -> value -> S -> M (bool * S)) snapshot :
  (forall key v acc, adds_nothing (f key v acc)) ->
  forall acc, adds_nothing (Range_from snapshot f acc).
Proof.
  intros Hf. induction snapshot as [|[key v0] rest IH]; intros acc; simpl.
  - apply adds_nothing_ret.
  - apply adds_nothing_bind; [apply adds_nothing_clients_Load|]. intros [v|]; [|apply IH].
    apply adds_nothing_bind; [apply Hf|]. intros [[|] acc']; [apply IH | apply adds_nothing_ret].
Qed.

Lemma adds_nothing_Broadcast data sched : adds_nothing (Broadcast data sched).
Proof.
  unfold Broadcast, Range. apply adds_nothing_bind; [apply adds_nothing_record|]. intros _.
  apply adds_nothing_bind.
  - apply adds_nothing_bind; [by intros w; split; [|split; [|repeat split]]|].
    intros m. apply adds_nothing_Range_from. intros. apply adds_nothing_Broadcast_visit.
  - intros [out n]. destruct (0 <? length out)%nat; apply adds_nothing_ret.
Qed.

(** X3.  [Broadcast], [BroadcastTo] and [EventHandler] register no client
    and create none, in any state and whether they return or panic: every
    key of the registry afterwards was a key before, the heap holds the same
    objects under the same identifiers, and timeout, tolerance and error
    handler of the broker are untouched. *)
Theorem delivery_adds_nothing (data : payload) (sched : nat -> client.select_outcome)
    (id : string) (o : client.select_outcome) (rw : ResponseWriter) (r : Request) :
  adds_nothing (Broadcast data sched) /\
  adds_nothing (BroadcastTo id data o) /\
  adds_nothing (EventHandler rw r sched).
Proof.
  split; [apply adds_nothing_Broadcast|]. split; [apply adds_nothing_BroadcastTo|].
  unfold EventHandler. destruct (Body r) as [body [e|]]; [apply adds_nothing_httpError|].
  apply adds_nothing_bind.
  - destruct (negb _); [apply adds_nothing_BroadcastTo | apply adds_nothing_Broadcast].
  - intros [e|]; [apply adds_nothing_httpError | apply adds_nothing_ret].
Qed.

(** ** One connection through a broadcast *)

Lemma Load_remove_keys_in k ks m : k ∈ ks -> Load k (remove_keys ks m) = None.
Proof.
  intros Hk. apply Load_None. intros Hin.
  apply list_elem_of_In, in_map_iff in Hin as ([k' v] & Heq & Hin). simpl in Heq. subst k'.
  apply list_elem_of_In, elem_of_remove_keys in Hin as [_ Hn]. by apply Hn.
Qed.

Lemma registered_index w k p c :
  registry_ok w ->
  Load k (clients (this w)) = Some (VClient p) ->
  heap w !! p = Some c ->
  exists i, registered w !! i = Some (k, p, c).
Proof.
  intros Hok Hl Hp. apply list_elem_of_lookup. unfold registered.
  apply list_elem_of_omap. exists (k, VClient p). split; [by apply Load_Some_elem|].
  unfold entry_client. simpl. by rewrite Hp.
Qed.

Lemma registered_key_index w i j k p c p' c' :
  registry_ok w ->
  registered w !! i = Some (k, p, c) ->
  registered w !! j = Some (k, p', c') ->
  i = j.
Proof.
  intros Hok Hi Hj.
  assert (Hnd : NoDup (keys (clients (this w)))) by apply Hok.
  rewrite <- (registered_snapshot w Hok) in Hnd.
  eapply NoDup_lookup; [exact Hnd| |].
  - rewrite keys_snapshot_lookup. apply fmap_Some. eexists. split; [exact Hi | done].
  - rewrite keys_snapshot_lookup. apply fmap_Some. eexists. split; [exact Hj | done].
Qed.

(** What a broadcast does to one registered connection. *)
Lemma Broadcast_entry w data sched i k p c :
  registry_ok w ->
  registered w !! i = Some (k, p, c) ->
  exists err w',
    Broadcast data sched w = Ok err w' /\
    registry_ok w' /\
    heap w' !! p = Some (client.Write c data (sched i)).1 /\
    Load k (clients (this w'))
    = (if bool_decide (sched i = client.TimedOut) &&
          client.ShouldDisconnect (client.Write c data client.TimedOut).1
       then None else Some (VClient p)) /\
    same_config w w'.
Proof.
  intros Hok Hi.
  destruct (Broadcast_sweep w data sched Hok) as (w' & Hrun & Hheap & _ & Hcl & Hcfg).
  destruct (registered_elem w k p c Hok) as (Hl & Hp & Hid);
    [by eapply list_elem_of_lookup_2|].
  eexists _, w'. split; [exact Hrun|].
  split; [|split; [|split; [|done]]].
  - pose proof (keeps_ok_Broadcast data sched w Hok) as H. by rewrite Hrun in H.
  - rewrite Hheap.
    rewrite (written_lookup data sched (registered w) 0 (heap w) i k p c); [done| | |done].
    + intros i' j' x y Hx Hy Hxy. by eapply registered_pointers_distinct.
    + intros k' p' c' Hin.
      destruct (registered_elem w k' p' c' Hok) as (_ & Hp' & _); [done|].
      by eapply lookup_lt_Some.
  - rewrite Hcl.
    destruct (bool_decide (sched i = client.TimedOut)) eqn:Ho; simpl.
    + apply bool_decide_eq_true in Ho.
      destruct (client.ShouldDisconnect _) eqn:Hsd.
      * apply Load_remove_keys_in, elem_of_evicted. by exists i, p, c.
      * rewrite Load_remove_keys; [done|]. intros Hin.
        apply elem_of_evicted in Hin as (j & p' & c' & Hj & _ & Hsd').
        assert (i = j) by (by eapply registered_key_index). subst j.
        simpl in Hj. rewrite Hi in Hj. simplify_eq. simpl in Hsd'. congruence.
    + apply bool_decide_eq_false in Ho.
      rewrite Load_remove_keys; [done|]. intros Hin.
      apply elem_of_evicted in Hin as (j & p' & c' & Hj & Hoj & _).
      assert (i = j) by (by eapply registered_key_index). subst j. done.
Qed.

(** X4.  A broadcast in which every [Write] succeeds returns no error and
    evicts no one, whatever the failure counters were: the registry is the
    one from before, and every registered connection has received the
    payload and has its failure counter at zero. *)
Theorem Broadcast_all_sent (w : world) (data : payload) :
  registry_ok w ->
  exists w',
    Broadcast data (fun _ => client.Sent) w = Ok None w' /\
    clients (this w') = clients (this w) /\
    forall k p c,
      Load k (clients (this w)) = Some (VClient p) ->
      heap w !! p = Some c ->
      exists c',
        heap w' !! p = Some c' /\
        client.failures c' = 0 /\
        client.Listen c' = client.Listen c ++ [data].
Proof.
  intros Hok.
  destruct (Broadcast_sweep w data (fun _ => client.Sent) Hok)
    as (w' & Hrun & _ & _ & Hcl & _).
  assert (Hres : forall n cs,
            failure_messages (write_results data (fun _ => client.Sent) n cs) = [] /\
            evicted data (fun _ => client.Sent) n cs = []).
  { intros n cs. induction cs as [|[[k p] c] cs IH] in n |- *; [done|].
    simpl. destruct (IH (S n)) as [H1 H2]. split; [exact H1 | exact H2]. }
  destruct (Hres 0%nat (registered w)) as [Hmsgs Hev].
  rewrite Hmsgs in Hrun. rewrite Hev, remove_keys_nil in Hcl.
  exists w'. split; [exact Hrun|]. split; [exact Hcl|].
  intros k p c Hl Hp. destruct (registered_index w k p c Hok Hl Hp) as [i Hi].
  destruct (Broadcast_entry w data (fun _ => client.Sent) i k p c Hok Hi)
    as (err & w'' & Hrun' & _ & Hheap & _).
  rewrite Hrun in Hrun'. simplify_eq. eexists. split; [exact Hheap|]. done.
Qed.

Lemma Broadcast_all_sent_witness :
  exists w',
    Broadcast examples.hello (fun _ => client.Sent) examples.two_clients = Ok None w' /\
    clients (this w') = [("1234", VClient 0); ("5678", VClient 1)].
Proof.
  destruct (Broadcast_all_sent examples.two_clients examples.hello)
    as (w' & Hrun & Hcl & _).
  - apply (bool_decide_unpack _). vm_compute. exact I.
  - exists w'. split; [exact Hrun | exact Hcl].
Defined.

Lemma Broadcast_keeps_absent data sched k w :
  Load k (clients (this w)) = None ->
  Load k (clients (this (final (Broadcast data sched w)))) = None.
Proof.
  rewrite !Load_None. intros Hk Hin.
  destruct (adds_nothing_Broadcast data sched w) as (Hsub & _). by apply Hk, Hsub.
Qed.

Lemma failed_broadcasts_keep_absent ds : forall w k,
  Load k (clients (this w)) = None ->
  Load k (clients (this (failed_broadcasts ds w))) = None.
Proof.
  induction ds as [|d ds IH]; intros w k Hk; [done|].
  apply IH. by apply Broadcast_keeps_absent.
Qed.

Lemma failed_broadcasts_fate (ds : list payload) (w : world)
    (k : string) (p : nat) (c : client.Client) :
  registry_ok w ->
  Load k (clients (this w)) = Some (VClient p) ->
  heap w !! p = Some c ->
  0 <= client.failures c < goint.max_int ->
  client.tolerance c <= goint.max_int ->
  let w' := failed_broadcasts ds w in
  (client.failures c + Z.of_nat (length ds) < client.tolerance c ->
   Load k (clients (this w')) = Some (VClient p) /\
   exists c',
     heap w' !! p = Some c' /\
     client.failures c' = client.failures c + Z.of_nat (length ds) /\
     client.Listen c' = client.Listen c) /\
  (ds <> [] ->
   client.tolerance c <= client.failures c + Z.of_nat (length ds) ->
   Load k (clients (this w')) = None).
Proof.
  induction ds as [|d ds IH] in w, c |- *; intros Hok Hl Hp Hf Htol w'; subst w'.
  - split; [|done]. intros _. split; [done|]. exists c. split; [done|].
    split; [simpl; lia | done].
  - destruct (registered_index w k p c Hok Hl Hp) as [i Hi].
    destruct (Broadcast_entry w d (fun _ => client.TimedOut) i k p c Hok Hi)
      as (err & w1 & Hrun & Hok1 & Hp1 & Hl1 & _).
    assert (Hw1 : failed_broadcasts (d :: ds) w = failed_broadcasts ds w1).
    { unfold failed_broadcasts. simpl. by rewrite Hrun. }
    rewrite Hw1. rewrite bool_decide_true in Hl1 by done. simpl in Hl1, Hp1.
    assert (Hi1 : goint.incr (client.failures c) = client.failures c + 1).
    { apply incr_below_max. unfold goint.min_int. lia. }
    unfold client.ShouldDisconnect in Hl1. simpl in Hl1. rewrite Hi1 in Hl1, Hp1.
    cbn [length]. split.
    + intros Hlt.
      destruct (client.failures c + 1 >=? client.tolerance c) eqn:Hge; [lia|].
      destruct (IH w1 (client.with_failures c (client.failures c + 1)) Hok1 Hl1 Hp1)
        as [Hkeep _]; [simpl; lia | done |].
      destruct Hkeep as (Hl' & c' & Hp' & Hf' & Hq'); [simpl; lia|].
      split; [exact Hl'|]. exists c'. split; [exact Hp'|]. split; [simpl in Hf'; lia | done].
    + intros _ Hge.
      destruct (client.failures c + 1 >=? client.tolerance c) eqn:Hsd.
      * by apply failed_broadcasts_keep_absent.
      * destruct (IH w1 (client.with_failures c (client.failures c + 1)) Hok1 Hl1 Hp1)
          as [_ Hgone]; [simpl; lia | done |].
        apply Hgone; [|simpl; lia]. intros ->. simpl in Hge. lia.
Qed.

(** X5.  Over a series of broadcasts in which every [Write] times out, a
    registered connection whose counter stands at [f] stays registered, with
    no payload delivered and its counter counting up, as long as [f] plus
    the number of broadcasts is below its tolerance; it is evicted by the
    broadcast that brings the counter to the tolerance and is not registered
    again by the later ones.  The registry keeps its invariant and gains no
    key on the way. *)
Theorem failed_broadcasts_evict_at_tolerance (ds : list payload) (w : world)
    (k : string) (p : nat) (c : client.Client) :
  registry_ok w ->
  Load k (clients (this w)) = Some (VClient p) ->
  heap w !! p = Some c ->
  0 <= client.failures c < goint.max_int ->
  client.tolerance c <= goint.max_int ->
  let w' := failed_broadcasts ds w in
  (client.failures c + Z.of_nat (length ds) < client.tolerance c ->
   Load k (clients (this w')) = Some (VClient p) /\
   exists c',
     heap w' !! p = Some c' /\
     client.failures c' = client.failures c + Z.of_nat (length ds) /\
     client.Listen c' = client.Listen c) /\
  (ds <> [] ->
   client.tolerance c <= client.failures c + Z.of_nat (length ds) ->
   Load k (clients (this w')) = None) /\
  registry_ok w' /\
  keys (clients (this w')) ⊆ keys (clients (this w)).
Proof.
  intros Hok Hl Hp Hf Htol w'. subst w'.
  destruct (failed_broadcasts_fate ds w k p c Hok Hl Hp Hf Htol) as [Hstay Hgone].
  split; [exact Hstay|]. split; [exact Hgone|]. clear Hstay Hgone Hl Hp Hf Htol.
  induction ds as [|d ds IH] in w, Hok |- *; [done|].
  change (failed_broadcasts (d :: ds) w)
    with (failed_broadcasts ds (final (Broadcast d (fun _ => client.TimedOut) w))).
  destruct (IH _ (keeps_ok_Broadcast d (fun _ => client.TimedOut) w Hok)) as [Hok' Hsub].
  split; [exact Hok'|]. etrans; [exact Hsub|].
  by destruct (adds_nothing_Broadcast d (fun _ => client.TimedOut) w) as (? & _).
Qed.

Lemma failed_broadcasts_evict_at_tolerance_witness :
  Load "1234" (clients (this (failed_broadcasts [examples.hello; examples.hello]
                                examples.one_client))) = Some (VClient 0) /\
  Load "1234" (clients (this (failed_broadcasts
                                [examples.hello; examples.hello; examples.hello]
                                examples.one_client))) = None.
Proof.
  assert (Hok : registry_ok examples.one_client).
  { apply (bool_decide_unpack _). vm_compute. exact I. }
  assert (Hf : 0 <= 0 < goint.max_int) by (vm_compute; split; [discriminate | reflexivity]).
  assert (Ht : 3 <= goint.max_int) by (vm_compute; discriminate).
  split.
  - destruct (failed_broadcasts_evict_at_tolerance [examples.hello; examples.hello]
                examples.one_client "1234" 0%nat (client.New 1000000000 3 "1234" "")
                Hok eq_refl eq_refl Hf Ht) as (H & _ & _).
    apply H. vm_compute. reflexivity.
  - destruct (failed_broadcasts_evict_at_tolerance
                [examples.hello; examples.hello; examples.hello]
                examples.one_client "1234" 0%nat (client.New 1000000000 3 "1234" "")
                Hok eq_refl eq_refl Hf Ht) as (_ & H & _).
    apply H; [discriminate | vm_compute; discriminate].
Defined.

(** ** Unicast *)


(** X6.  When the entry found under the identifier is no client,
    [BroadcastTo] deletes the entry and returns the malformed-client error;
    it does not panic, calls no [Write] and touches no client object, and
    afterwards the identifier is unknown. *)
Theorem BroadcastTo_malformed_entry (w : world) (id : string) (data : payload)
    (o : client.select_outcome) :
  Load id (clients (this w)) = Some VOther ->
  exists w',
    BroadcastTo id data o w = Ok (Some "client is malformed, disconnecting") w' /\
    clients (this w') = Delete id (clients (this w)) /\
    Load id (clients (this w')) = None /\
    heap w' = heap w /\
    history w' = history w ++ [CallBroadcastTo id data].
Proof.
  intros Hl. unfold BroadcastTo. run. rewrite Hl. simpl.
  eexists. split; [reflexivity|]. simpl. split; [done|].
  split; [apply Load_Delete_eq | done].
Qed.

Lemma BroadcastTo_malformed_entry_witness :
  exists w',
    BroadcastTo "oops" examples.hello client.Sent examples.corrupted
    = Ok (Some "client is malformed, disconnecting") w' /\
    clients (this w') = [("1234", VClient 0); ("5678", VClient 1)].
Proof.
  destruct (BroadcastTo_malformed_entry examples.corrupted "oops" examples.hello
              client.Sent eq_refl) as (w' & Hrun & Hcl & _).
  exists w'. split; [exact Hrun | exact Hcl].
Defined.

Lemma BroadcastTo_client w id data o p c :
  Load id (clients (this w)) = Some (VClient p) ->
  heap w !! p = Some c ->
  BroadcastTo id data o w
  = Ok (client.Write c data o).2
      (mkWorld (this w) (<[p := (client.Write c data o).1]> (heap w))
         (history w ++ [CallBroadcastTo id data; CallWrite p data o])).
Proof.
  intros Hl Hp. unfold BroadcastTo, Client_Write. run. rewrite Hl. simpl.
  rewrite Hp. simpl. destruct (client.Write c data o) as [c' err]. simpl.
  by rewrite <- app_assoc.
Qed.

Lemma BroadcastTo_absent_run w id data o :
  Load id (clients (this w)) = None ->
  BroadcastTo id data o w
  = Ok (Some ("no client with id " +:+ id +:+ " exists"))
      (mkWorld (this w) (heap w) (history w ++ [CallBroadcastTo id data])).
Proof. intros Hl. unfold BroadcastTo. run. by rewrite Hl. Qed.

Lemma unicasts_cons id d o ws w :
  unicasts id ((d, o) :: ws) w = unicasts id ws (final (BroadcastTo id d o w)).
Proof. reflexivity. Qed.

Lemma unicasts_client ws : forall w id p c,
  registry_ok w ->
  Load id (clients (this w)) = Some (VClient p) ->
  heap w !! p = Some c ->
  let w' := unicasts id ws w in
  registry_ok w' /\
  clients (this w') = clients (this w) /\
  heap w' !! p = Some (writes c ws).
Proof.
  induction ws as [|[d o] ws IH]; intros w id p c Hok Hl Hp w'; subst w'; [done|].
  pose proof (keeps_ok_BroadcastTo id d o w Hok) as Hok1.
  rewrite unicasts_cons.
  rewrite (BroadcastTo_client w id d o p c Hl Hp) in Hok1 |- *. cbn [final] in Hok1 |- *.
  match goal with |- context [unicasts id ws ?w1] =>
    destruct (IH w1 id p (client.Write c d o).1 Hok1 Hl) as (Hok' & Hcl' & Hp') end.
  { simpl. apply list_lookup_insert_eq. by eapply lookup_lt_Some. }
  split; [exact Hok'|]. split; [exact Hcl' | exact Hp'].
Qed.

(** X7.  Unicast and broadcast share the failure counter of a connection.
    Any series of [BroadcastTo] calls leaves the connection registered,
    whatever their outcomes, with its object as the same series of [Write]
    calls leaves it.  A broadcast after them in which every [Write] times
    out evicts it exactly when the timeouts of the series since the last
    success, with this one, have reached the tolerance. *)
Theorem unicast_failures_count_in_broadcast (w : world) (id : string) (p : nat)
    (c : client.Client) (ws : list (payload * client.select_outcome))
    (data : payload) :
  registry_ok w ->
  Load id (clients (this w)) = Some (VClient p) ->
  heap w !! p = Some c ->
  let w1 := unicasts id ws w in
  let w2 := final (Broadcast data (fun _ => client.TimedOut) w1) in
  Load id (clients (this w1)) = Some (VClient p) /\
  heap w1 !! p = Some (writes c ws) /\
  heap w2 !! p = Some (writes c (ws ++ [(data, client.TimedOut)])) /\
  Load id (clients (this w2))
  = if client.ShouldDisconnect (writes c (ws ++ [(data, client.TimedOut)]))
    then None else Some (VClient p).
Proof.
  intros Hok Hl Hp w1 w2. subst w1 w2.
  destruct (unicasts_client ws w id p c Hok Hl Hp) as (Hok1 & Hcl1 & Hp1).
  rewrite Hcl1. split; [exact Hl|]. split; [exact Hp1|].
  rewrite <- Hcl1 in Hl.
  destruct (registered_index _ id p _ Hok1 Hl Hp1) as [i Hi].
  destruct (Broadcast_entry _ data (fun _ => client.TimedOut) i id p _ Hok1 Hi)
    as (err & w2 & Hrun & _ & Hp2 & Hl2 & _).
  rewrite Hrun. cbn [final].
  assert (Hw : writes c (ws ++ [(data, client.TimedOut)])
               = (client.Write (writes c ws) data client.TimedOut).1).
  { clear. induction ws as [|[d o] ws IH] in c |- *; [done|]. cbn [writes app]. apply IH. }
  rewrite Hw. split; [exact Hp2|]. rewrite Hl2. by rewrite bool_decide_true.
Qed.

Lemma unicast_failures_count_in_broadcast_witness :
  Load "1234"
    (clients (this (final (Broadcast examples.hello (fun _ => client.TimedOut)
                             (unicasts "1234"
                                [(examples.hello, client.TimedOut);
                                 (examples.hello, client.TimedOut)]
                                examples.one_client))))) = None.
Proof.
  assert (Hok : registry_ok examples.one_client).
  { apply (bool_decide_unpack _). vm_compute. exact I. }
  destruct (unicast_failures_count_in_broadcast examples.one_client "1234" 0%nat
              (client.New 1000000000 3 "1234" "")
              [(examples.hello, client.TimedOut); (examples.hello, client.TimedOut)]
              examples.hello Hok eq_refl eq_refl) as (_ & _ & _ & H).
  rewrite H. reflexivity.
Defined.

(** ** From a delivery to the wire *)

Lemma select_after_write h w p c data o :
  h_flusher h = true ->
  h_client h = Some p ->
  h_taken h = length (client.Listen c) ->
  heap w !! p = Some (client.Write c data o).1 ->
  exists st w',
    ClientHandler_select [Received] h w = Ok st w' /\
    wire (writer_of st)
    = wire (h_w h)
      ++ match o with
         | client.Sent => [OpWrite (frame data); OpFlush]
         | client.TimedOut => []
         end.
Proof.
  intros Hfl Hcl Htk Hp.
  destruct (ClientHandler_select_frames [Received] h w p _ Hfl Hcl Hp)
    as (st & w' & Hrun & Hwire).
  exists st, w'. split; [exact Hrun|]. rewrite Hwire, Htk. f_equal.
  destruct o; simpl.
  - unfold client.Listen. rewrite drop_app_length. simpl.
    by destruct (bool_decide _).
  - unfold client.Listen. rewrite drop_all. done.
Qed.

(** X8.  A payload that a broadcast or a unicast hands to a connection is
    the next thing the handler of that connection puts on the wire, as one
    frame with one flush; a payload whose [Write] timed out does not reach
    the wire.  The handler is one that has a flusher and has taken
    everything handed over before. *)
Theorem delivery_reaches_the_wire (w : world) (data : payload)
    (sched : nat -> client.select_outcome) (i : nat) (k : string) (p : nat)
    (c : client.Client) (h : handler) :
  registry_ok w ->
  registered w !! i = Some (k, p, c) ->
  h_flusher h = true ->
  h_client h = Some p ->
  h_taken h = length (client.Listen c) ->
  let on_wire (o : client.select_outcome) :=
    match o with
    | client.Sent =>
        [OpWrite (list_byte_of_string "data: " ++ data ++ [x0a; x0a]%byte); OpFlush]
    | client.TimedOut => []
    end in
  (exists err w1 st w2,
     Broadcast data sched w = Ok err w1 /\
     ClientHandler_select [Received] h w1 = Ok st w2 /\
     wire (writer_of st) = wire (h_w h) ++ on_wire (sched i)) /\
  (forall o, exists err w1 st w2,
     BroadcastTo k data o w = Ok err w1 /\
     ClientHandler_select [Received] h w1 = Ok st w2 /\
     wire (writer_of st) = wire (h_w h) ++ on_wire o).
Proof.
  intros Hok Hi Hfl Hcl Htk on_wire. subst on_wire. split.
  - destruct (Broadcast_entry w data sched i k p c Hok Hi)
      as (err & w1 & Hrun & _ & Hp1 & _).
    destruct (select_after_write h w1 p c data (sched i) Hfl Hcl Htk Hp1)
      as (st & w2 & Hsel & Hwire).
    by exists err, w1, st, w2.
  - intros o.
    destruct (registered_elem w k p c Hok) as (Hl & Hp & _);
      [by eapply list_elem_of_lookup_2|].
    rewrite (BroadcastTo_client w k data o p c Hl Hp).
    match goal with |- context [Ok _ ?w1] =>
      destruct (select_after_write h w1 p c data o Hfl Hcl Htk) as (st & w2 & Hsel & Hwire)
    end.
    { simpl. apply list_lookup_insert_eq. by eapply lookup_lt_Some. }
    by eexists _, _, st, w2.
Qed.

Lemma delivery_reaches_the_wire_witness :
  exists err w1 st w2,
    Broadcast examples.hello examples.all_sent examples.one_client = Ok err w1 /\
    ClientHandler_select [Received] examples.handler_1234 w1 = Ok st w2 /\
    wire (writer_of st)
    = [OpWrite (list_byte_of_string "data: hello world" ++ [x0a; x0a]%byte); OpFlush].
Proof.
  assert (Hok : registry_ok examples.one_client).
  { apply (bool_decide_unpack _). vm_compute. exact I. }
  destruct (delivery_reaches_the_wire examples.one_client examples.hello
              examples.all_sent 0%nat "1234" 0%nat (client.New 1000000000 3 "1234" "")
              examples.handler_1234 Hok eq_refl eq_refl eq_refl eq_refl)
    as [(err & w1 & st & w2 & Hrun & Hsel & Hwire) _].
  exists err, w1, st, w2. split; [exact Hrun|]. split; [exact Hsel | exact Hwire].
Defined.

(** ** [ClientHandler]: acceptance, exit *)

Lemma New_ID timeout tolerance id xid :
  client.ID (client.New timeout tolerance id xid) = if decide (id = "") then xid else id.
Proof. unfold client.New. by destruct (decide (id = "")). Qed.

Lemma New_failures timeout tolerance id xid :
  client.failures (client.New timeout tolerance id xid) = 0.
Proof. unfold client.New. by destruct (decide (id = "")). Qed.

Lemma Load_app_absent key v m : Load key m = None -> Load key (m ++ [(key, v)]) = Some v.
Proof.
  intros Hl. induction m as [|e m IH]; simpl.
  - rewrite Load_cons. simpl. by rewrite bool_decide_true.
  - rewrite Load_cons in Hl |- *. destruct (bool_decide (e.1 = key)); [done | auto].
Qed.

Lemma Header_Get_Set_eq key val rw : Header_Get key (Header_Set key val rw) = val.
Proof.
  unfold Header_Get, Header_Set. simpl. induction (header rw) as [|e hs IH]; simpl.
  - by rewrite bool_decide_true.
  - destruct (bool_decide (e.1 = key)) eqn:He; simpl; [done|]. by rewrite He.
Qed.

Lemma Header_Get_Set_ne key key' val rw :
  key <> key' -> Header_Get key (Header_Set key' val rw) = Header_Get key rw.
Proof.
  intros Hne. unfold Header_Get, Header_Set. simpl.
  induction (header rw) as [|e hs IH]; simpl.
  - by rewrite bool_decide_false by congruence.
  - destruct (bool_decide (e.1 = key')) eqn:He'; simpl.
    + apply bool_decide_eq_true in He'. rewrite bool_decide_false by congruence. done.
    + destruct (bool_decide (e.1 = key)); [done | exact IH].
Qed.

Lemma Header_Get_call key op rw : Header_Get key (call op rw) = Header_Get key rw.
Proof. reflexivity. Qed.

(** X9.  A client that can be notified of a close and whose identifier is
    free is accepted: the handler creates a client with the broker's timeout
    and tolerance, a counter at zero and an empty queue, registers it under
    the identifier asked for, or under the generated one when none was
    asked for, and waits in its loop.  Nothing has been written to the
    response by then, and its four headers read as the event stream needs
    them, whatever headers were set before. *)
Theorem ClientHandler_accepts_free_identifier (w : world) (rw : ResponseWriter) (r : Request)
    (xid : string) :
  let asked := Get (Query r) "id" in
  let id := if decide (asked = "") then xid else asked in
  let p := length (heap w) in
  let c := client.New (timeout (this w)) (tolerance (this w)) asked xid in
  isCloseNotifier rw = true ->
  Load id (clients (this w)) = None ->
  exists rw' w',
    ClientHandler rw r xid [] w = Ok (Waiting (mkHandler rw' (isFlusher rw) (Some p) id O)) w' /\
    clients (this w') = clients (this w) ++ [(id, VClient p)] /\
    Load id (clients (this w')) = Some (VClient p) /\
    heap w' = heap w ++ [c] /\
    client.ID c = id /\ client.failures c = 0 /\ client.Listen c = [] /\
    wire rw' = wire rw /\
    Header_Get "Content-Type" rw' = "text/event-stream" /\
    Header_Get "Cache-Control" rw' = "no-cache" /\
    Header_Get "Connection" rw' = "keep-alive" /\
    Header_Get "Access-Control-Allow-Origin" rw' = "*".
Proof.
  intros asked id p c Hcn Hfree.
  assert (Hid : client.ID c = id) by apply New_ID.
  exists (event_stream rw). eexists. split; [|split; [|split; [|split]]].
  - unfold ClientHandler, as_Flusher, as_CloseNotifier. rewrite Hcn. cbn [negb].
    unfold client_New, alloc. unfold bind at 1. fold asked c p.
    unfold bind at 1, Client_ID, bind at 1, deref. cbn [heap].
    rewrite lookup_app_r by done. rewrite Nat.sub_diag. cbn [lookup list_lookup].
    unfold ret at 1. rewrite Hid.
    unfold bind at 1, hasClient, bind at 1, clients_Load, bind at 1, get_clients, ret.
    cbn [this clients]. rewrite Hfree.
    rewrite (bool_decide_false (is_Some None)) by (by intros [? ?]).
    unfold deferred, bind, addClient, Client_ID, bind, deref. cbn [heap].
    rewrite lookup_app_r by done. rewrite Nat.sub_diag. cbn [lookup list_lookup].
    rewrite Hid. unfold clients_Store, bind, get_clients, set_clients. cbn [this clients].
    unfold ret. cbn [this clients heap history default]. rewrite (Store_absent _ _ _ Hfree).
    unfold ClientHandler_loop, bind, hasClient, bind, clients_Load, bind, get_clients.
    cbn [this clients h_id]. rewrite (Load_app_absent _ _ _ Hfree).
    reflexivity.
  - done.
  - simpl. by apply Load_app_absent.
  - done.
  - split; [exact Hid|]. split; [apply New_failures|]. split; [apply New_notify|].
    split; [done|]. unfold event_stream.
    repeat split;
      repeat (first [rewrite Header_Get_Set_eq | rewrite Header_Get_Set_ne by done]);
      done.
Qed.

Lemma ClientHandler_accepts_free_identifier_witness :
  exists rw' w',
    ClientHandler examples.recorder (examples.connect "5678") "" [] examples.one_client
    = Ok (Waiting (mkHandler rw' true (Some 1%nat) "5678" O)) w' /\
    Load "5678" (clients (this w')) = Some (VClient 1) /\
    Header_Get "Content-Type" rw' = "text/event-stream".
Proof.
  destruct (ClientHandler_accepts_free_identifier examples.one_client examples.recorder
              (examples.connect "5678") "" eq_refl eq_refl)
    as (rw' & w' & Hrun & _ & Hl & _ & _ & _ & _ & _ & Hct & _).
  exists rw', w'. split; [exact Hrun|]. split; [exact Hl | exact Hct].
Defined.

Lemma Delete_Delete key m : Delete key (Delete key m) = Delete key m.
Proof.
  induction m as [|e m IH]; [done|]. rewrite Delete_cons.
  destruct (bool_decide (e.1 = key)) eqn:He; [done|].
  rewrite Delete_cons, He. by rewrite IH.
Qed.

Lemma Load_app_ne key key' v m :
  key <> key' -> Load key (m ++ [(key', v)]) = Load key m.
Proof.
  intros Hne. induction m as [|e m IH]; simpl.
  - rewrite Load_cons. simpl. by rewrite bool_decide_false by congruence.
  - rewrite !Load_cons. by rewrite IH.
Qed.

Ltac stopped :=
  subst; simpl; split; [done|]; split; [done|]; split; [by repeat split|];
  split; [by left|]; intros ? ? ?; discriminate.

(** What a handler in its loop does to the state: nothing but, possibly,
    the removal of its own identifier. *)
Lemma ClientHandler_select_state evs : forall h w res,
  ClientHandler_select evs h w = res ->
  heap (final res) = heap w /\
  history (final res) = history w /\
  same_config w (final res) /\
  (clients (this (final res)) = clients (this w) \/
   clients (this (final res)) = Delete (h_id h) (clients (this w))) /\
  (forall h' w', res = Ok (Waiting h') w' ->
     h_id h' = h_id h /\ h_client h' = h_client h /\ h_flusher h' = h_flusher h).
Proof.
  induction evs as [|[| |] evs IH]; intros h w res Hres.
  - subst. simpl. split; [done|]. split; [done|]. split; [by repeat split|].
    split; [by left|]. by intros h' w' [= <- _].
  - cbn [ClientHandler_select] in Hres. unfold Client_Listen in Hres.
    unfold bind at 1 in Hres. unfold bind at 1, deref in Hres.
    destruct (h_client h) as [p|] eqn:Hcl; [|stopped].
    destruct (heap w !! p) as [c|]; [|stopped].
    unfold ret at 1 in Hres.
    destruct (client.Listen c !! h_taken h) as [data|].
    2: { destruct (IH h w res Hres) as (H1 & H2 & H3 & H4 & H5).
         rewrite Hcl in H5. done. }
    unfold Flush in Hres. destruct (h_flusher h) eqn:Hfl; [|stopped].
    unfold bind at 1, ret at 1 in Hres.
    unfold bind at 1, hasClient, bind at 1, clients_Load, bind at 1, get_clients,
      ret at 1 in Hres.
    unfold ret at 1 in Hres. cbn [h_id] in Hres.
    destruct (bool_decide (is_Some (Load (h_id h) (clients (this w))))); [|stopped].
    destruct (IH _ w res Hres) as (H1 & H2 & H3 & H4 & H5).
    cbn [h_id h_client h_flusher] in *. done.
  - cbn [ClientHandler_select] in Hres.
    unfold bind at 1, hasClient, bind at 1, clients_Load, bind at 1, get_clients,
      ret at 1 in Hres.
    unfold ret at 1 in Hres.
    destruct (bool_decide (is_Some (Load (h_id h) (clients (this w))))); [by apply IH|].
    stopped.
  - cbn [ClientHandler_select] in Hres. unfold bind at 1, listenForClose, removeClient,
      clients_Delete, bind at 1, get_clients, set_clients in Hres.
    destruct (IH _ _ res Hres) as (H1 & H2 & H3 & H4 & H5).
    cbn [this clients heap history] in *.
    split; [done|]. split; [done|]. split; [destruct H3 as (?&?&?); by repeat split|].
    split; [|done]. right. destruct H4 as [-> | ->]; [done | apply Delete_Delete].
Qed.

Lemma ClientHandler_resume_exit evs h w :
  let res := ClientHandler_resume evs h w in
  (forall k, k <> h_id h ->
     Load k (clients (this (final res))) = Load k (clients (this w))) /\
  heap (final res) = heap w /\
  match res with
  | Ok (Waiting h') _ => h_id h' = h_id h /\ h_client h' = h_client h
  | _ => Load (h_id h) (clients (this (final res))) = None
  end.
Proof.
  intros res. subst res. unfold ClientHandler_resume, deferred.
  destruct (ClientHandler_select_state evs h w _ eq_refl) as (Hheap & _ & _ & Hcl & Hh).
  assert (Hother : forall k m, k <> h_id h ->
            (m = clients (this w) \/ m = Delete (h_id h) (clients (this w))) ->
            Load k m = Load k (clients (this w))).
  { intros k m Hk [-> | ->]; [done | by apply Load_Delete_ne]. }
  destruct (ClientHandler_select evs h w) as [[rw'|h'] w'|msg w']; simpl in *.
  - split; [intros k Hk; rewrite Load_Delete_ne by done; by apply Hother|].
    split; [done | apply Load_Delete_eq].
  - split; [intros k Hk; by apply Hother|]. split; [done|].
    destruct (Hh h' w' eq_refl) as (? & ? & _). done.
  - split; [intros k Hk; rewrite Load_Delete_ne by done; by apply Hother|].
    split; [done | apply Load_Delete_eq].
Qed.

Lemma ClientHandler_accepted_run rw r xid evs w :
  let asked := Get (Query r) "id" in
  let id := if decide (asked = "") then xid else asked in
  let p := length (heap w) in
  let c := client.New (timeout (this w)) (tolerance (this w)) asked xid in
  isCloseNotifier rw = true ->
  Load id (clients (this w)) = None ->
  ClientHandler rw r xid evs w
  = ClientHandler_resume evs (mkHandler (event_stream rw) (isFlusher rw) (Some p) id O)
      (mkWorld (mkBroker (timeout (this w)) (clients (this w) ++ [(id, VClient p)])
                  (errorHandler (this w)) (tolerance (this w)))
         (heap w ++ [c]) (history w)).
Proof.
  intros asked id p c Hcn Hfree.
  assert (Hid : client.ID c = id) by apply New_ID.
  unfold ClientHandler, as_Flusher, as_CloseNotifier. rewrite Hcn. cbn [negb].
  unfold client_New, alloc. unfold bind at 1. fold asked c p.
  unfold bind at 1, Client_ID, bind at 1, deref. cbn [heap].
  rewrite lookup_app_r by done. rewrite Nat.sub_diag. cbn [lookup list_lookup].
  unfold ret at 1. rewrite Hid.
  unfold bind at 1, hasClient, bind at 1, clients_Load, bind at 1, get_clients, ret.
  cbn [this clients]. rewrite Hfree.
  rewrite (bool_decide_false (is_Some None)) by (by intros [? ?]).
  unfold ClientHandler_resume, deferred, bind, addClient, Client_ID, bind, deref. cbn [heap].
  rewrite lookup_app_r by done. rewrite Nat.sub_diag. cbn [lookup list_lookup].
  rewrite Hid. unfold clients_Store, bind, get_clients, set_clients. cbn [this clients].
  unfold ret. cbn [this clients heap history default]. rewrite (Store_absent _ _ _ Hfree).
  unfold ClientHandler_loop, bind, hasClient, bind, clients_Load, bind, get_clients.
  cbn [this clients h_id]. rewrite (Load_app_absent _ _ _ Hfree).
  reflexivity.
Qed.

(** X10.  A handler touches no entry of the registry but its own, and it
    never leaves that entry behind: when an accepted handler returns, or
    panics, its identifier is out of the registry, and while it still waits
    it is the handler of the identifier it registered.  The same holds for
    a handler that goes on after it had been waiting. *)
Theorem ClientHandler_unregisters_on_exit (rw : ResponseWriter) (r : Request)
    (xid : string) (evs : list loop_event) (h : handler) (w : world) :
  let asked := Get (Query r) "id" in
  let id := if decide (asked = "") then xid else asked in
  (isCloseNotifier rw = true ->
   Load id (clients (this w)) = None ->
   let res := ClientHandler rw r xid evs w in
   (forall k, k <> id ->
      Load k (clients (this (final res))) = Load k (clients (this w))) /\
   match res with
   | Ok (Waiting h') _ => h_id h' = id /\ h_client h' = Some (length (heap w))
   | _ => Load id (clients (this (final res))) = None
   end) /\
  (let res := ClientHandler_resume evs h w in
   (forall k, k <> h_id h ->
      Load k (clients (this (final res))) = Load k (clients (this w))) /\
   match res with
   | Ok (Waiting h') _ => h_id h' = h_id h /\ h_client h' = h_client h
   | _ => Load (h_id h) (clients (this (final res))) = None
   end).
Proof.
  intros asked id. split.
  - intros Hcn Hfree res. subst res.
    rewrite (ClientHandler_accepted_run rw r xid evs w Hcn Hfree). fold asked id.
    match goal with |- context [ClientHandler_resume evs ?h0 ?w1] =>
      destruct (ClientHandler_resume_exit evs h0 w1) as (Hother & _ & Hexit) end.
    cbn [this clients h_id h_client] in *. split; [|exact Hexit].
    intros k Hk. rewrite (Hother k Hk). by apply Load_app_ne.
  - destruct (ClientHandler_resume_exit evs h w) as (Hother & _ & Hexit). by split.
Qed.

Lemma ClientHandler_unregisters_on_exit_witness :
  Load "5678"
    (clients (this (final (ClientHandler examples.recorder (examples.connect "5678") ""
                             [Ticked; CloseNotified; Ticked] examples.one_client))))
  = None /\
  Load "1234"
    (clients (this (final (ClientHandler examples.recorder (examples.connect "5678") ""
                             [Ticked; CloseNotified; Ticked] examples.one_client))))
  = Some (VClient 0).
Proof.
  destruct (ClientHandler_unregisters_on_exit examples.recorder (examples.connect "5678")
              "" [Ticked; CloseNotified; Ticked] examples.handler_1234
              examples.one_client) as [H _].
  destruct (H eq_refl eq_refl) as [Hother Hexit]. split.
  - exact Hexit.
  - rewrite (Hother "1234"); [reflexivity | discriminate].
Defined.

Lemma ClientHandler_select_unregistered evs : forall h w p c,
  h_flusher h = true ->
  h_client h = Some p ->
  heap w !! p = Some c ->
  Load (h_id h) (clients (this w)) = None ->
  Ticked ∈ evs ->
  exists rw' w',
    ClientHandler_select evs h w = Ok (Returned rw') w' /\
    (wire rw' = wire (h_w h) \/
     exists data, wire rw' = wire (h_w h) ++ [OpWrite (frame data); OpFlush]).
Proof.
  induction evs as [|[| |] evs IH]; intros h w p c Hfl Hcl Hp Hl Hin.
  - by apply elem_of_nil in Hin.
  - apply elem_of_cons in Hin as [Hin | Hin]; [discriminate|].
    cbn [ClientHandler_select]. unfold Client_Listen.
    unfold bind at 1. unfold bind at 1, deref. rewrite Hcl, Hp. unfold ret at 1.
    destruct (client.Listen c !! h_taken h) as [data|].
    + rewrite Hfl. unfold Flush. unfold bind at 1, ret at 1.
      unfold bind at 1, hasClient, bind at 1, clients_Load, bind at 1, get_clients, ret at 1.
      unfold ret at 1. cbn [h_id]. rewrite Hl.
      rewrite (bool_decide_false (is_Some None)) by (by intros [? ?]).
      eexists _, _. split; [reflexivity|]. right. exists data. simpl.
      by rewrite <- app_assoc.
    + apply (IH h w p c); try done.
  - cbn [ClientHandler_select].
    unfold bind at 1, hasClient, bind at 1, clients_Load, bind at 1, get_clients, ret at 1.
    unfold ret at 1. rewrite Hl.
    rewrite (bool_decide_false (is_Some None)) by (by intros [? ?]).
    eexists _, _. split; [reflexivity|]. by left.
  - apply elem_of_cons in Hin as [Hin | Hin]; [discriminate|].
    cbn [ClientHandler_select]. unfold bind at 1, listenForClose, removeClient,
      clients_Delete, bind at 1, get_clients, set_clients.
    apply (IH h _ p c); try done. simpl. apply Load_Delete_eq.
Qed.

(** X11.  Once the client of a handler is out of the registry, through an
    eviction by a broadcast or through the close notification, the handler
    returns at the next tick at the latest, whatever comes after it, and its
    identifier stays out of the registry.  Until then it writes at most the
    one frame of a payload it takes before that tick. *)
Theorem handler_returns_once_unregistered (evs : list loop_event) (h : handler)
    (w : world) (p : nat) (c : client.Client) :
  h_flusher h = true ->
  h_client h = Some p ->
  heap w !! p = Some c ->
  Ticked ∈ evs ->
  let stops (res : result handler_status) :=
    exists rw' w',
      res = Ok (Returned rw') w' /\
      Load (h_id h) (clients (this w')) = None /\
      (wire rw' = wire (h_w h) \/
       exists data,
         wire rw'
         = wire (h_w h)
           ++ [OpWrite (list_byte_of_string "data: " ++ data ++ [x0a; x0a]%byte);
               OpFlush]) in
  (Load (h_id h) (clients (this w)) = None -> stops (ClientHandler_resume evs h w)) /\
  stops (ClientHandler_resume (CloseNotified :: evs) h w).
Proof.
  intros Hfl Hcl Hp Hin stops. subst stops.
  assert (Hgen : forall w0, heap w0 !! p = Some c ->
            Load (h_id h) (clients (this w0)) = None ->
            exists rw' w',
              deferred (removeClient (h_id h)) (ClientHandler_select evs h) w0
              = Ok (Returned rw') w' /\
              Load (h_id h) (clients (this w')) = None /\
              (wire rw' = wire (h_w h) \/
               exists data, wire rw' = wire (h_w h) ++ [OpWrite (frame data); OpFlush])).
  { intros w0 Hp0 Hl0.
    destruct (ClientHandler_select_unregistered evs h w0 p c Hfl Hcl Hp0 Hl0 Hin)
      as (rw' & w' & Hrun & Hwire).
    unfold deferred. rewrite Hrun. simpl. eexists _, _. split; [reflexivity|].
    split; [apply Load_Delete_eq | exact Hwire]. }
  split.
  - intros Hl. by apply Hgen.
  - unfold ClientHandler_resume, deferred in *. cbn [ClientHandler_select].
    unfold bind at 1, listenForClose, removeClient at 1, clients_Delete at 1, bind at 1,
      get_clients, set_clients at 1.
    match goal with |- context [ClientHandler_select evs h ?w1] =>
      destruct (Hgen w1) as (rw' & w' & Hrun & Hrest) end; [done | apply Load_Delete_eq |].
    exists rw', w'. split; [exact Hrun | exact Hrest].
Qed.

Lemma handler_returns_once_unregistered_witness :
  exists rw' w',
    ClientHandler_resume [CloseNotified; Received; Ticked; Received]
      examples.handler_1234 examples.delivered = Ok (Returned rw') w' /\
    Load "1234" (clients (this w')) = None.
Proof.
  destruct (handler_returns_once_unregistered [Received; Ticked; Received]
              examples.handler_1234 examples.delivered 0%nat
              (client.Write (client.New 1000000000 3 "1234" "") examples.hello
                 client.Sent).1 eq_refl eq_refl eq_refl)
    as [_ (rw' & w' & Hrun & Hl & _)].
  - right. left.
  - exists rw', w'. split; [exact Hrun | exact Hl].
Defined.

(** ** [EventHandler]: the responses *)

Lemma httpError_run rw r e code w :
  httpError rw r e code w
  = Ok (match errorHandler (this w) with
        | Some eh => eh rw r e
        | None => http_Error rw e code
        end) w.
Proof. unfold httpError. by destruct (errorHandler (this w)). Qed.

(** X12.  A submission without identifier is answered by the outcome of the
    broadcast: with status 200 and nothing else when no [Write] failed;
    otherwise the messages of the failed writes, joined by newlines, go to
    the error handler of the broker, or, when there is none, out as a
    plain-text response of status 500 that ends in a newline. *)
Theorem EventHandler_broadcast_response (rw : ResponseWriter) (r : Request)
    (sched : nat -> client.select_outcome) (w : world) (data : payload) :
  registry_ok w ->
  Body r = (data, None) ->
  Get (Query r) "id" = "" ->
  let msgs := failure_messages (write_results data sched 0 (registered w)) in
  let msg := String.concat newline msgs in
  exists rw' w',
    EventHandler rw r sched w = Ok rw' w' /\
    Broadcast data sched w = Ok (aggregate msgs) w' /\
    (msgs = [] ->
     rw' = mkWriter (isFlusher rw) (isCloseNotifier rw) (header rw)
             (wire rw ++ [OpWriteHeader 200])) /\
    (msgs <> [] -> errorHandler (this w) = None ->
     wire rw'
     = wire rw ++ [OpWriteHeader 500; OpWrite (list_byte_of_string (msg +:+ newline))] /\
     Header_Get "Content-Type" rw' = "text/plain; charset=utf-8") /\
    (msgs <> [] -> forall eh, errorHandler (this w) = Some eh -> rw' = eh rw r msg).
Proof.
  intros Hok Hbody Hid msgs msg.
  destruct (Broadcast_sweep w data sched Hok) as (w' & Hrun & _ & _ & _ & Hcfg).
  fold msgs in Hrun. destruct Hcfg as (_ & _ & Heh).
  assert (Hev : EventHandler rw r sched w = respond rw r (aggregate msgs) w').
  { unfold EventHandler. rewrite Hbody, Hid. rewrite bool_decide_true by done.
    cbn [negb]. unfold bind. by rewrite Hrun. }
  rewrite Hev. unfold respond, aggregate. destruct msgs as [|m ms] eqn:Hm.
  - eexists _, w'. split; [reflexivity|]. split; [done|]. split; [done|]. by split.
  - rewrite httpError_run, Heh. eexists _, w'. split; [reflexivity|]. split; [done|].
    split; [done|]. split.
    + intros _ ->. split; [unfold http_Error; simpl; by rewrite <- app_assoc|].
      unfold http_Error. rewrite !Header_Get_call, Header_Get_Set_ne by done.
      apply Header_Get_Set_eq.
    + by intros _ eh ->.
Qed.

Lemma EventHandler_broadcast_response_witness :
  exists rw' w',
    EventHandler examples.recorder (mkRequest [] (examples.hello, None))
      examples.all_time_out examples.one_client = Ok rw' w' /\
    wire rw'
    = [OpWriteHeader 500;
       OpWrite (list_byte_of_string
                  ("failed to write to client 1234, timeout exceeded" +:+ newline))].
Proof.
  assert (Hok : registry_ok examples.one_client).
  { apply (bool_decide_unpack _). vm_compute. exact I. }
  destruct (EventHandler_broadcast_response examples.recorder
              (mkRequest [] (examples.hello, None)) examples.all_time_out
              examples.one_client examples.hello Hok eq_refl eq_refl)
    as (rw' & w' & Hrun & _ & _ & Hdef & _).
  exists rw', w'. split; [exact Hrun|].
  destruct Hdef as [Hwire _]; [discriminate | reflexivity | exact Hwire].
Defined.

(** X13.  A submission with an identifier is answered by the outcome of the
    unicast and never changes the registry.  An unknown identifier and a
    timed-out [Write] go to the error handler (or out with status 500) with
    the unknown-client message and with the timeout message of the
    connection; a [Write] that was taken is answered with status 200 and
    nothing else. *)
Theorem EventHandler_unicast_response (rw : ResponseWriter) (r : Request)
    (sched : nat -> client.select_outcome) (w : world) (data : payload) :
  Body r = (data, None) ->
  Get (Query r) "id" <> "" ->
  let id := Get (Query r) "id" in
  let failed (msg : string) :=
    match errorHandler (this w) with
    | Some eh => eh rw r msg
    | None =>
        call (OpWrite (list_byte_of_string (msg +:+ newline)))
          (call (OpWriteHeader 500)
             (Header_Set "X-Content-Type-Options" "nosniff"
                (Header_Set "Content-Type" "text/plain; charset=utf-8" rw)))
    end in
  (Load id (clients (this w)) = None ->
   exists w',
     EventHandler rw r sched w
     = Ok (failed ("no client with id " +:+ id +:+ " exists")) w' /\
     clients (this w') = clients (this w) /\ heap w' = heap w) /\
  (forall p c,
     Load id (clients (this w)) = Some (VClient p) ->
     heap w !! p = Some c ->
     exists w',
       EventHandler rw r sched w
       = Ok (match sched O with
             | client.Sent => call (OpWriteHeader 200) rw
             | client.TimedOut =>
                 failed ("failed to write to client " +:+ client.ID c
                         +:+ ", timeout exceeded")
             end) w' /\
       clients (this w') = clients (this w) /\
       heap w' = <[p := (client.Write c data (sched O)).1]> (heap w)).
Proof.
  intros Hbody Hid id failed. subst failed. split.
  - intros Hl. unfold EventHandler. rewrite Hbody. fold id.
    rewrite bool_decide_false by done. cbn [negb]. unfold bind.
    unfold BroadcastTo. run. rewrite Hl. simpl. rewrite httpError_run. simpl.
    eexists. split; [reflexivity|]. done.
  - intros p c Hl Hp. unfold EventHandler. rewrite Hbody. fold id.
    rewrite bool_decide_false by done. cbn [negb]. unfold bind at 1.
    rewrite (BroadcastTo_client w id data (sched O) p c Hl Hp).
    destruct (sched O); simpl.
    + eexists. split; [reflexivity|]. done.
    + rewrite httpError_run. simpl. eexists. split; [reflexivity|]. done.
Qed.

Lemma EventHandler_unicast_response_witness :
  exists rw' w',
    EventHandler examples.recorder (mkRequest [("id", ["9999"])] (examples.hello, None))
      examples.all_sent examples.one_client = Ok rw' w' /\
    wire rw'
    = [OpWriteHeader 500;
       OpWrite (list_byte_of_string ("no client with id 9999 exists" +:+ newline))].
Proof.
  destruct (EventHandler_unicast_response examples.recorder
              (mkRequest [("id", ["9999"])] (examples.hello, None))
              examples.all_sent examples.one_client examples.hello eq_refl)
    as [H _]; [discriminate|].
  destruct (H eq_refl) as (w' & Hrun & _).
  eexists _, w'. split; [exact Hrun | reflexivity].
Defined.

(** ** The registry helpers *)

Lemma Load_Store_ne key key' v m : key <> key' -> Load key (Store key' v m) = Load key m.
Proof.
  intros Hne. unfold Store. destruct (Load key' m) as [v0|].
  - induction m as [|e m IH]; [done|]. cbn [List.map]. rewrite !Load_cons.
    destruct (bool_decide (e.1 = key')) eqn:He'; cbn [fst snd].
    + apply bool_decide_eq_true in He'. rewrite !bool_decide_false by congruence. exact IH.
    + destruct (bool_decide (e.1 = key)); [done | exact IH].
  - by apply Load_app_ne.
Qed.

Lemma Delete_absent key m : Load key m = None -> Delete key m = m.
Proof.
  intros Hl. induction m as [|e m IH]; [done|]. rewrite Load_cons in Hl.
  rewrite Delete_cons. destruct (bool_decide (e.1 = key)); [done|]. by rewrite IH.
Qed.

(** X14.  [addClient] makes the client the one that is found and written to
    under its ID, whatever was registered under that ID before, and
    [removeClient] makes the ID unknown again; neither touches an entry
    under another key, and removing an identifier that is not registered
    changes nothing. *)
Theorem registry_helpers_round_trip (w : world) (p : nat) (c : client.Client)
    (data : payload) (o : client.select_outcome) :
  heap w !! p = Some c ->
  let id := client.ID c in
  let w1 := final (addClient (Some p) w) in
  let w2 := final (removeClient id w1) in
  hasClient id w1 = Ok true w1 /\
  (exists w', BroadcastTo id data o w1 = Ok (client.Write c data o).2 w' /\
              heap w' !! p = Some (client.Write c data o).1) /\
  (forall k, k <> id -> Load k (clients (this w1)) = Load k (clients (this w))) /\
  hasClient id w2 = Ok false w2 /\
  (exists w', BroadcastTo id data o w2
              = Ok (Some ("no client with id " +:+ id +:+ " exists")) w') /\
  (forall k, k <> id -> Load k (clients (this w2)) = Load k (clients (this w))) /\
  clients (this (final (removeClient id w2))) = clients (this w2).
Proof.
  intros Hp id w1 w2.
  assert (Hw1 : clients (this w1) = Store id (VClient p) (clients (this w)) /\
                heap w1 = heap w).
  { subst w1. unfold addClient, Client_ID, clients_Store. run. by rewrite Hp. }
  destruct Hw1 as [Hcl1 Hheap1].
  assert (Hl1 : Load id (clients (this w1)) = Some (VClient p)).
  { rewrite Hcl1. apply Load_Store_eq. }
  assert (Hcl2 : clients (this w2) = Delete id (clients (this w1))) by done.
  assert (Hl2 : Load id (clients (this w2)) = None).
  { rewrite Hcl2. apply Load_Delete_eq. }
  split; [|split; [|split; [|split; [|split; [|split]]]]].
  - unfold hasClient, clients_Load, bind, get_clients, ret. rewrite Hl1.
    by rewrite bool_decide_true.
  - rewrite <- Hheap1 in Hp. rewrite (BroadcastTo_client w1 id data o p c Hl1 Hp).
    eexists. split; [reflexivity|]. simpl. apply list_lookup_insert_eq.
    by eapply lookup_lt_Some.
  - intros k Hk. rewrite Hcl1. by apply Load_Store_ne.
  - unfold hasClient, clients_Load, bind, get_clients, ret. rewrite Hl2.
    rewrite bool_decide_false; [done | by intros [? ?]].
  - rewrite (BroadcastTo_absent_run w2 id data o Hl2). by eexists.
  - intros k Hk. rewrite Hcl2, Load_Delete_ne by done. rewrite Hcl1.
    by apply Load_Store_ne.
  - simpl. by apply Delete_absent.
Qed.

Lemma registry_helpers_round_trip_witness :
  hasClient "1234" (final (addClient (Some 0%nat) examples.strict))
  = Ok true (final (addClient (Some 0%nat) examples.strict)).
Proof.
  destruct (registry_helpers_round_trip examples.strict 0%nat
              (client.New 1000000000 1 "1234" "") examples.hello client.Sent eq_refl)
    as [H _].
  exact H.
Defined.

(** ** No panic *)

Lemma BroadcastTo_returns w id data o :
  registry_ok w ->
  exists err w',
    BroadcastTo id data o w = Ok err w' /\
    err <> Some "client is malformed, disconnecting".
Proof.
  intros [Hnd Hok]. destruct (Load id (clients (this w))) as [v|] eqn:Hl.
  - apply Load_Some_elem in Hl as Hin. rewrite Forall_forall in Hok.
    apply Hok, entry_ok_inv in Hin as (p & c & Hv & Hp & _). simpl in Hv. subst v.
    rewrite (BroadcastTo_client w id data o p c Hl Hp). eexists _, _. split; [done|].
    destruct o; simpl; [done|]. unfold client.timeout_error. simpl. discriminate.
  - rewrite (BroadcastTo_absent_run w id data o Hl). eexists _, _. split; [done|].
    simpl. discriminate.
Qed.

(** X15.  In a reachable state, [Broadcast], [BroadcastTo] and
    [EventHandler] return: none of them panics, and [BroadcastTo] never
    meets a malformed client. *)
Theorem delivery_never_panics (w : world) (data : payload)
    (sched : nat -> client.select_outcome) (id : string) (o : client.select_outcome)
    (rw : ResponseWriter) (r : Request) :
  reachable w ->
  returns (Broadcast data sched) w /\
  (exists err w',
     BroadcastTo id data o w = Ok err w' /\
     err <> Some "client is malformed, disconnecting") /\
  returns (EventHandler rw r sched) w.
Proof.
  intros Hreach. pose proof (reachable_registry_ok w Hreach) as Hok.
  split; [|split].
  - destruct (Broadcast_sweep w data sched Hok) as (w' & Hrun & _). by eexists _, w'.
  - by apply BroadcastTo_returns.
  - unfold returns, EventHandler. destruct (Body r) as [body [e|]].
    + rewrite httpError_run. by eexists _, _.
    + unfold bind. destruct (negb _).
      * destruct (BroadcastTo_returns w (Get (Query r) "id") body (sched O) Hok)
          as (err & w' & -> & _).
        destruct err as [e|]; [rewrite httpError_run|]; by eexists _, _.
      * destruct (Broadcast_sweep w body sched Hok) as (w' & -> & _).
        destruct (aggregate _) as [e|]; [rewrite httpError_run|]; by eexists _, _.
Qed.

Lemma delivery_never_panics_witness :
  returns (Broadcast examples.hello examples.all_time_out) examples.two_clients.
Proof.
  assert (Hreach : reachable examples.two_clients).
  { unfold examples.two_clients, examples.one_client.
    eapply reachable_step; [|apply step_ClientHandler].
    eapply reachable_step; [apply reachable_New | apply step_ClientHandler]. }
  destruct (delivery_never_panics examples.two_clients examples.hello
              examples.all_time_out "1234" client.Sent examples.recorder
              (examples.connect "1234") Hreach) as [H _].
  exact H.
Defined.

Lemma ClientHandler_duplicate_run rw r xid evs w :
  let asked := Get (Query r) "id" in
  let id := if decide (asked = "") then xid else asked in
  isCloseNotifier rw = true ->
  is_Some (Load id (clients (this w))) ->
  exists rw' w', ClientHandler rw r xid evs w = Ok (Returned rw') w'.
Proof.
  intros asked id Hcn Hdup.
  set (c := client.New (timeout (this w)) (tolerance (this w)) asked xid).
  assert (Hid : client.ID c = id) by apply New_ID.
  unfold ClientHandler, as_Flusher, as_CloseNotifier. rewrite Hcn.
  cbn [negb]. unfold client_New, alloc. unfold bind at 1. fold asked c.
  unfold bind at 1, Client_ID, bind at 1, deref. cbn [heap].
  rewrite lookup_app_r by done. rewrite Nat.sub_diag. cbn [lookup list_lookup].
  unfold ret at 1. rewrite Hid. unfold bind at 1, hasClient, bind at 1, clients_Load,
    bind at 1, get_clients, ret. cbn [this clients].
  rewrite bool_decide_true by done.
  unfold bind. rewrite httpError_run. by eexists _, _.
Qed.

Lemma deferred_returns d body w :
  (forall w0, returns d w0) -> returns body w -> returns (deferred d body) w.
Proof.
  intros Hd (st & w' & Hb). unfold returns, deferred. rewrite Hb.
  destruct st as [rw'|h]; [|by eexists _, _].
  destruct (Hd w') as ([] & w'' & ->). by eexists _, _.
Qed.

(** X16.  With a response writer that can flush, [ClientHandler] returns
    or goes on waiting, it never panics: in any state, for any request and
    whatever happens around it.  The same holds for a handler with a
    flusher that goes on after it had been waiting. *)
Theorem ClientHandler_never_panics_with_flusher (rw : ResponseWriter) (r : Request)
    (xid : string) (evs : list loop_event) (w : world) (h : handler) (p : nat)
    (c : client.Client) :
  (isFlusher rw = true -> returns (ClientHandler rw r xid evs) w) /\
  (h_flusher h = true -> h_client h = Some p -> heap w !! p = Some c ->
   returns (ClientHandler_resume evs h) w).
Proof.
  assert (Hresume : forall h0 w0 p0 c0,
            h_flusher h0 = true -> h_client h0 = Some p0 -> heap w0 !! p0 = Some c0 ->
            returns (ClientHandler_resume evs h0) w0).
  { intros h0 w0 p0 c0 Hfl Hcl Hp. apply deferred_returns.
    - intros w1. by eexists _, _.
    - destruct (ClientHandler_select_frames evs h0 w0 p0 c0 Hfl Hcl Hp)
        as (st & w' & Hrun & _). by exists st, w'. }
  split; [|by apply Hresume].
  intros Hfl. destruct (isCloseNotifier rw) eqn:Hcn.
  - set (asked := Get (Query r) "id").
    set (id := if decide (asked = "") then xid else asked).
    destruct (Load id (clients (this w))) as [v|] eqn:Hl.
    + destruct (ClientHandler_duplicate_run rw r xid evs w Hcn) as (rw' & w' & Hrun).
      { fold asked id. by rewrite Hl. }
      by exists (Returned rw'), w'.
    + unfold returns. rewrite (ClientHandler_accepted_run rw r xid evs w Hcn Hl).
      eapply (Hresume _ _ (length (heap w))); [exact Hfl | reflexivity |].
      simpl. rewrite lookup_app_r by done. by rewrite Nat.sub_diag.
  - destruct (ClientHandler_no_close_notifier rw r xid evs w Hcn) as (rw' & Hrun & _).
    by exists (Returned rw'), w.
Qed.

Lemma ClientHandler_never_panics_with_flusher_witness :
  returns (ClientHandler examples.recorder (examples.connect "5678") ""
             [Received; CloseNotified; Ticked]) examples.one_client.
Proof.
  destruct (ClientHandler_never_panics_with_flusher examples.recorder
              (examples.connect "5678") "" [Received; CloseNotified; Ticked]
              examples.one_client examples.handler_1234 0%nat
              (client.New 1000000000 3 "1234" "")) as [H _].
  exact (H eq_refl).
Defined.

(** ** Invariants of the reachable states *)

(** A property of the state that the four ways in which the methods change
    the state keep is kept by every method, and so holds in every reachable
    state once it holds for a new broker. *)
Section invariant.

Variable I : world -> Prop.

Hypothesis I_clients : forall w m, I w -> I (final (set_clients m w)).
Hypothesis I_record : forall w e, I w -> I (final (record e w)).
Hypothesis I_write : forall w p c data o,
  I w -> heap w !! p = Some c -> I (final (assign p (client.Write c data o).1 w)).
Hypothesis I_alloc : forall w id xid, I w -> I (final (client_New id xid w)).

Lemma keeps_ret {A} (a : A) : keeps I (ret a).
Proof. by intros w Hw. Qed.

Lemma keeps_bind {A B} (m : M A) (k : A -> M B) :
  keeps I m -> (forall a, keeps I (k a)) -> keeps I (bind m k).
Proof.
  intros Hm Hk w Hw. unfold bind. specialize (Hm w Hw).
  destruct (m w) as [a w'|msg w']; simpl in *; [by apply Hk | done].
Qed.

Lemma keeps_deref client : keeps I (deref client).
Proof.
  intros w Hw. unfold deref. destruct client as [p|]; [|done].
  by destruct (heap w !! p).
Qed.

Lemma keeps_clients_Load key : keeps I (clients_Load key).
Proof. by intros w Hw. Qed.

Lemma keeps_clients_Delete key : keeps I (clients_Delete key).
Proof. intros w Hw. by apply (I_clients w (Delete key (clients (this w)))). Qed.

Lemma keeps_clients_Store key v : keeps I (clients_Store key v).
Proof. intros w Hw. by apply (I_clients w (Store key v (clients (this w)))). Qed.

Lemma keeps_hasClient id : keeps I (hasClient id).
Proof. by intros w Hw. Qed.

Lemma keeps_httpError rw r err code : keeps I (httpError rw r err code).
Proof. intros w Hw. by rewrite httpError_run. Qed.

Lemma keeps_Client_Write client data o : keeps I (Client_Write client data o).
Proof.
  intros w Hw. unfold Client_Write, bind, deref.
  destruct client as [p|]; [|done]. destruct (heap w !! p) as [c|] eqn:Hp; [|done].
  cbn [default from_option].
  pose proof (I_write _ p c data o (I_record w (CallWrite p data o) Hw) Hp) as H.
  destruct (client.Write c data o) as [c' err]. exact H.
Qed.

Lemma keeps_BroadcastTo id data o : keeps I (BroadcastTo id data o).
Proof.
  unfold BroadcastTo. apply keeps_bind; [intros w Hw; by apply I_record|]. intros _.
  apply keeps_bind; [apply keeps_clients_Load|]. intros [[p|]|]; simpl.
  - apply keeps_Client_Write.
  - apply keeps_bind; [apply keeps_clients_Delete | intros _; apply keeps_ret].
  - apply keeps_ret.
Qed.

Lemma keeps_Broadcast_visit data sched key v acc :
  keeps I (Broadcast_visit data sched key v acc).
Proof.
  unfold Broadcast_visit. destruct acc as [out n].
  destruct (as_Client v) as [client ok].
  apply keeps_bind.
  { destruct ok; simpl; [apply keeps_ret|].
    apply keeps_bind; [apply keeps_clients_Delete | intros _; apply keeps_ret]. }
  intros out'. apply keeps_bind; [apply keeps_Client_Write|]. intros [e|].
  - apply keeps_bind.
    { apply keeps_bind; [apply keeps_deref | intros c; apply keeps_ret]. }
    intros sd. apply keeps_bind; [|intros _; apply keeps_ret].
    destruct sd; [|apply keeps_ret].
    apply keeps_bind; [|intros i; apply keeps_clients_Delete].
    apply keeps_bind; [apply keeps_deref | intros c; apply keeps_ret].
  - apply keeps_ret.
Qed.

Lemma keeps_Range_from {S} (f : string -> value -> S -> M (bool * S)) snapshot :
  (forall key v acc, keeps I (f key v acc)) ->
  forall acc, keeps I (Range_from snapshot f acc).
Proof.
  intros Hf. induction snapshot as [|[key v0] rest IH]; intros acc; simpl.
  - apply keeps_ret.
  - apply keeps_bind; [apply keeps_clients_Load|]. intros [v|]; [|apply IH].
    apply keeps_bind; [apply Hf|]. intros [[|] acc']; [apply IH | apply keeps_ret].
Qed.

Lemma keeps_Broadcast data sched : keeps I (Broadcast data sched).
Proof.
  unfold Broadcast, Range. apply keeps_bind; [intros w Hw; by apply I_record|]. intros _.
  apply keeps_bind.
  - apply keeps_bind; [by intros w Hw|]. intros m.
    apply keeps_Range_from. intros. apply keeps_Broadcast_visit.
  - intros [out n]. destruct (0 <? length out)%nat; apply keeps_ret.
Qed.

Lemma keeps_EventHandler rw r sched : keeps I (EventHandler rw r sched).
Proof.
  unfold EventHandler. destruct (Body r) as [data [e|]]; [apply keeps_httpError|].
  apply keeps_bind.
  - destruct (negb _); [apply keeps_BroadcastTo | apply keeps_Broadcast].
  - intros [e|]; [apply keeps_httpError | apply keeps_ret].
Qed.

Lemma keeps_ClientHandler_select evs : forall h, keeps I (ClientHandler_select evs h).
Proof.
  induction evs as [|[| |] evs IH]; intros h; simpl.
  - apply keeps_ret.
  - apply keeps_bind.
    { apply keeps_bind; [apply keeps_deref | intros c; apply keeps_ret]. }
    intros [data|]; [|apply IH].
    apply keeps_bind; [destruct (h_flusher h); by intros w Hw|]. intros rw.
    apply keeps_bind; [apply keeps_hasClient|]. intros [|]; [apply IH | apply keeps_ret].
  - apply keeps_bind; [apply keeps_hasClient|]. intros [|]; [apply IH | apply keeps_ret].
  - apply keeps_bind; [apply keeps_clients_Delete | intros _; apply IH].
Qed.

Lemma keeps_deferred d body : keeps I d -> keeps I body -> keeps I (deferred d body).
Proof.
  intros Hd Hb w Hw. unfold deferred. specialize (Hb w Hw).
  destruct (body w) as [[rw|h] w'|msg w']; simpl in *.
  - specialize (Hd w' Hb). by destruct (d w').
  - done.
  - by apply Hd.
Qed.

Lemma keeps_ClientHandler rw r xid evs : keeps I (ClientHandler rw r xid evs).
Proof.
  unfold ClientHandler. destruct (as_Flusher rw) as [flusher ok0].
  destruct (as_CloseNotifier rw) as [notify ok]. destruct ok; simpl.
  - apply keeps_bind; [intros w Hw; by apply I_alloc|]. intros client.
    apply keeps_bind.
    { apply keeps_bind; [apply keeps_deref | intros c; apply keeps_ret]. }
    intros id. apply keeps_bind; [apply keeps_hasClient|]. intros [|].
    + apply keeps_bind; [apply keeps_httpError | intros ?; apply keeps_ret].
    + apply keeps_deferred; [apply keeps_clients_Delete|].
      apply keeps_bind.
      { apply keeps_bind.
        - apply keeps_bind; [apply keeps_deref | intros c; apply keeps_ret].
        - intros i. apply keeps_clients_Store. }
      intros _. apply keeps_bind; [apply keeps_hasClient|].
      intros [|]; [apply keeps_ClientHandler_select | apply keeps_ret].
  - apply keeps_bind; [apply keeps_httpError | intros ?; apply keeps_ret].
Qed.

Lemma keeps_step w w' : step w w' -> I w -> I w'.
Proof.
  intros Hstep Hw. destruct Hstep.
  - by apply keeps_Broadcast.
  - by apply keeps_BroadcastTo.
  - by apply keeps_EventHandler.
  - by apply keeps_ClientHandler.
  - apply keeps_deferred;
      [apply keeps_clients_Delete | apply keeps_ClientHandler_select | done].
  - by apply keeps_clients_Delete.
Qed.

Lemma reachable_invariant :
  (forall timeout tolerance eh, I (start (New timeout tolerance eh))) ->
  forall w, reachable w -> I w.
Proof.
  intros Hstart w. induction 1 as [t tol eh | w w' _ IH Hstep]; [apply Hstart|].
  by eapply keeps_step.
Qed.

End invariant.

Lemma New_timeout timeout tolerance id xid :
  client.timeout (client.New timeout tolerance id xid) = timeout.
Proof. unfold client.New. by destruct (decide (id = "")). Qed.

Lemma New_tolerance timeout tolerance id xid :
  client.tolerance (client.New timeout tolerance id xid) = tolerance.
Proof. unfold client.New. by destruct (decide (id = "")). Qed.

(** X17.  In every reachable state every client that was ever created, be
    it registered, evicted or turned down as a duplicate, carries the
    timeout and the tolerance that the broker holds in that state. *)
Theorem clients_inherit_policy (w : world) : reachable w -> inherits w.
Proof.
  apply reachable_invariant.
  - intros w0 m Hw. exact Hw.
  - intros w0 e Hw. exact Hw.
  - intros w0 p c data o Hw Hp. unfold inherits in *. simpl.
    rewrite Forall_forall in Hw. apply Forall_forall. intros x Hx.
    apply list_elem_of_lookup in Hx as [i Hi].
    destruct (decide (i = p)) as [-> | Hne].
    + rewrite list_lookup_insert_eq in Hi by (by eapply lookup_lt_Some).
      simplify_eq. destruct o; simpl; apply Hw; by eapply list_elem_of_lookup_2.
    + rewrite list_lookup_insert_ne in Hi by done.
      apply Hw. by eapply list_elem_of_lookup_2.
  - intros w0 id xid Hw. unfold inherits in *. simpl.
    apply Forall_app. split; [exact Hw|]. apply Forall_singleton.
    by rewrite New_timeout, New_tolerance.
  - intros t tol eh. apply Forall_nil_2.
Qed.

Lemma clients_inherit_policy_witness :
  Forall (fun c => client.timeout c = 1000000000 /\ client.tolerance c = 3)
    (heap examples.two_clients).
Proof.
  assert (Hreach : reachable examples.two_clients).
  { unfold examples.two_clients, examples.one_client.
    eapply reachable_step; [|apply step_ClientHandler].
    eapply reachable_step; [apply reachable_New | apply step_ClientHandler]. }
  exact (clients_inherit_policy examples.two_clients Hreach).
Defined.

(** ** The life of a connection *)

Lemma failed_broadcasts_ids ds : forall w,
  ids (heap (failed_broadcasts ds w)) = ids (heap w).
Proof.
  induction ds as [|d ds IH]; intros w; [done|].
  change (failed_broadcasts (d :: ds) w)
    with (failed_broadcasts ds (final (Broadcast d (fun _ => client.TimedOut) w))).
  rewrite IH. by destruct (adds_nothing_Broadcast d (fun _ => client.TimedOut) w) as (_ & ? & _).
Qed.

(** X18.  Eviction ends the handler.  When as many broadcasts in a row, in
    each of which every [Write] times out, have run on a fresh connection as
    its tolerance says (a tolerance of at least one, within the range of
    [int]), the connection is out of the registry, and its handler, which
    has a flusher and was waiting all the while, returns at its next tick
    with nothing written. *)
Theorem eviction_ends_the_handler (ds : list payload) (w : world) (h : handler)
    (p : nat) (c : client.Client) (evs : list loop_event) :
  registry_ok w ->
  Load (h_id h) (clients (this w)) = Some (VClient p) ->
  heap w !! p = Some c ->
  h_client h = Some p ->
  h_flusher h = true ->
  client.failures c = 0 ->
  0 < client.tolerance c <= goint.max_int ->
  Z.of_nat (length ds) = client.tolerance c ->
  exists w',
    ClientHandler_resume (Ticked :: evs) h (failed_broadcasts ds w)
    = Ok (Returned (h_w h)) w' /\
    clients (this w') = clients (this (failed_broadcasts ds w)) /\
    Load (h_id h) (clients (this w')) = None.
Proof.
  intros Hok Hl Hp Hcl Hfl Hf Htol Hlen.
  assert (Hgone : Load (h_id h) (clients (this (failed_broadcasts ds w))) = None).
  { destruct (failed_broadcasts_fate ds w (h_id h) p c Hok Hl Hp) as [_ H];
      [unfold goint.max_int in *; lia | lia |].
    apply H; [|lia]. intros ->. simpl in Hlen. lia. }
  unfold ClientHandler_resume, deferred. cbn [ClientHandler_select].
  unfold bind at 1, hasClient, bind at 1, clients_Load, bind at 1, get_clients, ret at 1.
  unfold ret at 1. rewrite Hgone.
  rewrite (bool_decide_false (is_Some None)) by (by intros [? ?]).
  unfold ret, removeClient, clients_Delete, bind, get_clients, set_clients.
  eexists. split; [reflexivity|]. cbn [this clients].
  rewrite (Delete_absent _ _ Hgone). by split.
Qed.

Lemma eviction_ends_the_handler_witness :
  exists w',
    ClientHandler_resume [Ticked; Received] examples.handler_1234
      (failed_broadcasts [examples.hello; examples.hello; examples.hello]
         examples.one_client)
    = Ok (Returned (h_w examples.handler_1234)) w' /\
    Load "1234" (clients (this w')) = None.
Proof.
  assert (Hok : registry_ok examples.one_client).
  { apply (bool_decide_unpack _). vm_compute. exact I. }
  destruct (eviction_ends_the_handler [examples.hello; examples.hello; examples.hello]
              examples.one_client examples.handler_1234 0%nat
              (client.New 1000000000 3 "1234" "") [Received]
              Hok eq_refl eq_refl eq_refl eq_refl eq_refl)
    as (w' & Hrun & _ & Hl).
  - vm_compute. split; [reflexivity | discriminate].
  - reflexivity.
  - exists w'. split; [exact Hrun | exact Hl].
Defined.

(** X19.  A handler idles without effect: while its client is registered
    and nothing that it has not taken is in the queue, ticks and attempts
    to receive leave the handler waiting as it was, the response untouched
    and the state unchanged. *)
Theorem handler_idles (evs : list loop_event) (h : handler) (w : world) (p : nat)
    (c : client.Client) :
  is_Some (Load (h_id h) (clients (this w))) ->
  h_client h = Some p ->
  heap w !! p = Some c ->
  (length (client.Listen c) <= h_taken h)%nat ->
  CloseNotified ∉ evs ->
  ClientHandler_select evs h w = Ok (Waiting h) w.
Proof.
  intros Hreg Hcl Hp Hq. induction evs as [|[| |] evs IH]; intros Hev.
  - done.
  - apply not_elem_of_cons in Hev as [_ Hev].
    cbn [ClientHandler_select]. unfold Client_Listen.
    unfold bind at 1. unfold bind at 1, deref. rewrite Hcl, Hp. unfold ret at 1.
    rewrite (lookup_ge_None_2 _ _ Hq). by apply IH.
  - apply not_elem_of_cons in Hev as [_ Hev].
    cbn [ClientHandler_select].
    unfold bind at 1, hasClient, bind at 1, clients_Load, bind at 1, get_clients, ret at 1.
    unfold ret at 1. rewrite bool_decide_true by done. by apply IH.
  - exfalso. apply Hev. left.
Qed.

Lemma handler_idles_witness :
  ClientHandler_select [Ticked; Received; Ticked] examples.handler_1234
    examples.one_client
  = Ok (Waiting examples.handler_1234) examples.one_client.
Proof.
  apply (handler_idles [Ticked; Received; Ticked] examples.handler_1234
           examples.one_client 0%nat (client.New 1000000000 3 "1234" "")).
  - vm_compute. eexists. reflexivity.
  - reflexivity.
  - reflexivity.
  - vm_compute. lia.
  - intros Hin. repeat (apply elem_of_cons in Hin as [Hin | Hin]; [discriminate|]).
    by apply elem_of_nil in Hin.
Defined.
